(** * Design-pattern demos: a shallow embedding and its properties

    The repository is a set of stand-alone JavaScript scripts, one per
    design pattern.  Each script declares a few classes and then drives
    them.  This development embeds the classes the properties below talk
    about, one Rocq module per script, and proves the properties.

    Modelling conventions, shared by all modules:
    - the numbers the scripts compute and compare with (balances, amounts,
      cash reserves) are binary64 doubles ([float]): [+], [-], [<=] and [>]
      are the IEEE operations, with their rounding, infinities and [NaN];
    - the facade and the discount examples are stated under exact
      arithmetic, over the rationals ([Q]);
    - an object reference is a location ([loc]); objects that are mutated
      or compared by identity live in a heap ([gmap loc _]);
    - a method that can [throw] returns a [result]; the state reached
      when the exception leaves the method is returned next to it;
    - [console.log] emits an event carrying the line; a run returns the
      events it emitted, in order. *)

From Stdlib Require Import QArith Lqa Ascii String Floats.
From stdpp Require Import gmap strings list fin_maps.

Local Open Scope string_scope.
Local Open Scope list_scope.

(** ** Shared definitions *)

Abbreviation loc := positive.

(** The outcome of a call: a normal return, or [throw new Error(message)]. *)
Inductive result (A : Type) : Type :=
| Return (a : A)
| Throw (message : string).
Arguments Return {A} a.
Arguments Throw {A} message.

Definition result_bind {A B} (f : A -> result B) (r : result A) : result B :=
  match r with
  | Return a => f a
  | Throw message => Throw message
  end.

#[global] Instance result_mret : MRet result := @Return.
#[global] Instance result_mbind : MBind result := @result_bind.

Definition throws {A} (r : result A) : bool :=
  match r with Return _ => false | Throw _ => true end.

(** JavaScript values that the scripts store in fields or return. *)
Inductive value : Type :=
| VUndefined
| VNumber (q : Q)
| VString (s : string)
| VBoolean (b : bool)
| VRef (l : loc).

(** [a <= b] and [a > b] on doubles; both are false when an operand is
    [NaN]. *)
Definition leb (a b : float) : bool := PrimFloat.leb a b.
Definition gtb (a b : float) : bool := PrimFloat.ltb b a.
Arguments leb : simpl never.
Arguments gtb : simpl never.

(** The integer a finite double stands for, in units of [2 ^ ez]. *)
Definition aligned (s : bool) (m : positive) (e ez : Z) : Z :=
  cond_Zopp s (Zpos (fst (shl_align m e ez))).

(** Truthiness, as [if (v)] and [!v] see it. *)
Definition truthy (v : value) : bool :=
  match v with
  | VUndefined => false
  | VNumber q => negb (Qeq_bool q 0)
  | VString s => negb (String.eqb s "")
  | VBoolean b => b
  | VRef _ => true
  end.

(** A template literal is the sequence of its text and of the values it
    interpolates; a console line is one such sequence. *)
Inductive piece : Type :=
| Str (s : string)
| Val (v : value)
| Num (x : float).

(** What a run leaves behind: the lines printed and, where a property
    needs to tell who was called, the method invocations. *)
Inductive event : Type :=
| Logged (line : list piece)
| Invoke (receiver : loc) (method : string) (argument : value).

(** A method body over a mutable state [S]: it returns or throws, leaves a
    state behind in both cases, and emits events on the way. *)
Definition M (S A : Type) : Type := S -> result A * S * list event.

Definition ret {S A} (a : A) : M S A := fun s => (Return a, s, []).

Definition bind {S A B} (f : A -> M S B) (m : M S A) : M S B :=
  fun s =>
    match m s with
    | (Return a, s1, out1) =>
        match f a s1 with
        | (r, s2, out2) => (r, s2, out1 ++ out2)
        end
    | (Throw e, s1, out1) => (Throw e, s1, out1)
    end.

#[global] Instance M_ret {S} : MRet (M S) := @ret S.
#[global] Instance M_bind {S} : MBind (M S) := @bind S.

Definition num (q : Q) : piece := Val (VNumber q).

Definition throw {S A} (message : string) : M S A :=
  fun s => (Throw message, s, []).
Definition getState {S} : M S S := fun s => (Return s, s, []).
Definition putState {S} (s : S) : M S unit := fun _ => (Return tt, s, []).
Definition emit {S} (e : event) : M S unit := fun s => (Return tt, s, [e]).
Definition console_log {S} (line : list piece) : M S unit :=
  emit (Logged line).

(** Projections of a finished run. *)
Definition outcome {S A} (r : result A * S * list event) : result A := r.1.1.
Definition final {S A} (r : result A * S * list event) : S := r.1.2.
Definition events {S A} (r : result A * S * list event) : list event := r.2.

(** [array.forEach(callback)] for a callback that leaves the array alone. *)
Fixpoint forEach {S A} (callback : A -> M S unit) (array : list A) : M S unit :=
  match array with
  | [] => mret tt
  | x :: rest => callback x ;; forEach callback rest
  end.

(** ** Prototype pattern: [Shape], [Rectangle], [Circle] *)

Module Prototype.

Inductive class : Type := Shape | Rectangle | Circle.

(** An object is its class and its own properties; JavaScript objects are
    open, so the properties are a map from names to values. *)
Record object : Type := Object { class_of : class; fields : gmap string value }.

(** [o.f]: reading a property that is absent yields [undefined]. *)
Definition get (o : object) (f : string) : value :=
  default VUndefined (fields o !! f).

(** [o.f = v] on the object itself. *)
Definition set (o : object) (f : string) (v : value) : object :=
  Object (class_of o) (<[f := v]> (fields o)).

(** [new C(...)] allocates the object at a location not yet in use. *)
Definition alloc (o : object) (h : gmap loc object) : loc * gmap loc object :=
  let l := fresh (dom h) in (l, <[l := o]> h).

(** [constructor(width, height)] of [Rectangle], run on an empty [this]. *)
Definition Rectangle_constructor (width height : value) : object :=
  set (set (set (Object Rectangle ∅) "width" width) "height" height)
      "type" (VString "Rectangle").

(** [constructor(radius)] of [Circle]. *)
Definition Circle_constructor (radius : value) : object :=
  set (set (Object Circle ∅) "radius" radius) "type" (VString "Circle").

Definition new_Rectangle (width height : value) (h : gmap loc object) :=
  alloc (Rectangle_constructor width height) h.

Definition new_Circle (radius : value) (h : gmap loc object) :=
  alloc (Circle_constructor radius) h.

(** [this.clone()], dispatched on the class of [this]. *)
Definition clone (this : loc) (h : gmap loc object)
  : result (loc * gmap loc object) :=
  match h !! this with
  | None => Throw "TypeError: not an object"
  | Some o =>
      match class_of o with
      | Shape => Throw "clone() method must be implemented"
      | Rectangle => Return (new_Rectangle (get o "width") (get o "height") h)
      | Circle => Return (new_Circle (get o "radius") h)
      end
  end.

(** [l.f] and [l.f = v] through a reference. *)
Definition read (l : loc) (f : string) (h : gmap loc object) : value :=
  match h !! l with Some o => get o f | None => VUndefined end.

Definition write (l : loc) (f : string) (v : value) (h : gmap loc object)
  : gmap loc object :=
  alter (fun o => set o f v) l h.

(** The objects that [new Rectangle(width, height)] and
    [new Circle(radius)] build. *)
Inductive constructed : object -> Prop :=
| constructed_Rectangle width height :
    constructed (Rectangle_constructor width height)
| constructed_Circle radius :
    constructed (Circle_constructor radius).

End Prototype.

(** ** Proxy pattern: [BankAccount], [IBankAccount], [RealBankAccount],
    [BankAccountProxy] *)

(** The account of the first example, used without a proxy. *)
Module BankAccount.

Record t : Type := { balance : float }.

Definition deposit (amount : float) : M t value :=
  this ← getState;
  putState {| balance := (balance this + amount)%float |};;
  this ← getState;
  console_log [Str "Deposited "; Num amount; Str ". New balance: ";
               Num (balance this)];;
  mret VUndefined.

Definition withdraw (amount : float) : M t value :=
  this ← getState;
  if leb amount (balance this) then
    putState {| balance := (balance this - amount)%float |};;
    this ← getState;
    console_log [Str "Withdrawn "; Num amount; Str ". New balance: ";
                 Num (balance this)];;
    mret VUndefined
  else
    console_log [Str "Insufficient funds!"];;
    mret VUndefined.

End BankAccount.

(** The subject interface: whatever the state [A] of the implementing
    object is, it offers [deposit] and [withdraw]. *)
Module IBankAccount.

Class t (A : Type) : Type := {
  deposit : float -> M A value;
  withdraw : float -> M A value
}.

(** The interface's own method bodies are empty. *)
Definition base (A : Type) : t A :=
  {| deposit := fun _ => mret VUndefined;
     withdraw := fun _ => mret VUndefined |}.

End IBankAccount.

Module RealBankAccount.

Record t : Type := { balance : float }.

Definition deposit (amount : float) : M t value :=
  this ← getState;
  putState {| balance := (balance this + amount)%float |};;
  this ← getState;
  console_log [Str "Deposited "; Num amount; Str ". New balance: ";
               Num (balance this)];;
  mret VUndefined.

Definition withdraw (amount : float) : M t value :=
  this ← getState;
  if leb amount (balance this) then
    putState {| balance := (balance this - amount)%float |};;
    this ← getState;
    console_log [Str "Withdrawn "; Num amount; Str ". New balance: ";
                 Num (balance this)];;
    mret (VBoolean true)
  else
    mret (VBoolean false).

#[global] Instance implements : IBankAccount.t t :=
  {| IBankAccount.deposit := deposit; IBankAccount.withdraw := withdraw |}.

End RealBankAccount.

(** The proxy holds a reference [this.realAccount] and no state of its own:
    its methods run over the state of the object behind that reference,
    which may be any implementation of the interface. *)
Module BankAccountProxy.

Section WithRealAccount.
Context {A : Type} {realAccount : IBankAccount.t A}.

Definition validateTransaction (amount : float) : M A bool :=
  if leb amount 0 then
    console_log [Str "Proxy: Invalid amount"];;
    mret false
  else
    mret true.

Definition deposit (amount : float) : M A value :=
  valid ← validateTransaction amount;
  if valid : bool then
    console_log [Str "Proxy: Logging deposit transaction"];;
    IBankAccount.deposit amount;;
    mret VUndefined
  else
    mret VUndefined.

Definition withdraw (amount : float) : M A value :=
  valid ← validateTransaction amount;
  if valid : bool then
    console_log [Str "Proxy: Checking withdrawal limit"];;
    if gtb amount 1000 then
      console_log [Str "Proxy: Cannot withdraw more than 1000 at once"];;
      mret VUndefined
    else
      done ← IBankAccount.withdraw amount;
      (if negb (truthy done) then
         console_log [Str "Proxy: Insufficient funds!"]
       else mret tt);;
      mret VUndefined
  else
    mret VUndefined.

End WithRealAccount.

End BankAccountProxy.

(** ** Strategy pattern: [CashStrategy] *)

Module CashStrategy.

Record t : Type := { cashAmount : float }.

Definition constructor (cashAmount : float) : t := {| cashAmount := cashAmount |}.

Definition pay (amount : float) : M t value :=
  this ← getState;
  if gtb amount (cashAmount this) then
    throw "Insufficient cash amount"
  else
    putState {| cashAmount := (cashAmount this - amount)%float |};;
    this ← getState;
    console_log [Str "Paid "; Num amount; Str " using Cash."; Str " ";
                 Str "Cash amount remaining: "; Num (cashAmount this)];;
    mret VUndefined.

End CashStrategy.

(** ** Facade pattern: [Discount], [Shipping], [Fees], [ShopFacade] *)

Module Discount.
Definition calculate (price : Q) : Q := (price * 0.9)%Q.
End Discount.

Module Shipping.
Definition calculate (price : Q) : Q := (price * 0.1)%Q.
End Shipping.

Module Fees.
Definition calculate (price : Q) : Q := (price * 1.05)%Q.
End Fees.

Module ShopFacade.

Definition calculate (price : Q) : M unit Q :=
  let price := Discount.calculate price in
  console_log [Str "Discount: "; num price];;
  let price := Fees.calculate price in
  console_log [Str "Fees: "; num price];;
  let price := (price + Shipping.calculate price)%Q in
  console_log [Str "Shipping: "; num price];;
  mret price.

End ShopFacade.

(** ** Simple factory: [Animal], [Dog], [Cat], [AnimalFactory] *)

Module SimpleFactory.

(** Instances carry no fields: an animal is its class. *)
Inductive class : Type := Animal | Dog | Cat.

Definition makeSound (this : class) : result string :=
  match this with
  | Animal => Throw "makeSound() method must be implemented"
  | Dog => Return "Woof!"
  | Cat => Return "Meow!"
  end.

(** [String.prototype.toLowerCase] on the characters of a Rocq string:
    the letters [A]..[Z] move to [a]..[z], every other character stays.
    (JavaScript also lowers letters outside ASCII; none of them becomes a
    letter of the two words the factory looks for.) *)
Definition toLowerCase_char (c : ascii) : ascii :=
  let n := N_of_ascii c in
  if ((65 <=? n)%N && (n <=? 90)%N)%bool then ascii_of_N (n + 32) else c.

Fixpoint toLowerCase (s : string) : string :=
  match s with
  | EmptyString => EmptyString
  | String c rest => String (toLowerCase_char c) (toLowerCase rest)
  end.

Definition createAnimal (type : string) : result class :=
  let scrutinee := toLowerCase type in
  if String.eqb scrutinee "dog" then Return Dog
  else if String.eqb scrutinee "cat" then Return Cat
  else Throw "Animal type not supported".

End SimpleFactory.

(** ** Factory method: [Vehicle], [Car], [Bike], [VehicleFactory],
    [CarFactory], [BikeFactory] *)

Module FactoryMethod.

Inductive vehicle : Type := Vehicle | Car | Bike.
Inductive factory : Type := VehicleFactory | CarFactory | BikeFactory.

#[global] Instance vehicle_eq_dec : EqDecision vehicle.
Proof. solve_decision. Defined.
#[global] Instance factory_eq_dec : EqDecision factory.
Proof. solve_decision. Defined.

(** The body of [Vehicle]'s constructor; [this_constructor] is what
    [this.constructor] evaluates to, the class named after [new]. *)
Definition Vehicle_constructor (this_constructor : vehicle) : result unit :=
  if decide (this_constructor = Vehicle) then
    Throw "Abstract class cannot be instantiated"
  else Return tt.

Definition VehicleFactory_constructor (this_constructor : factory) : result unit :=
  if decide (this_constructor = VehicleFactory) then
    Throw "Abstract class cannot be instantiated"
  else Return tt.

(** [new C()]: the subclasses declare no constructor, so the inherited one
    runs on the new object, whose [constructor] is [C]. *)
Definition new_vehicle (C : vehicle) : result vehicle :=
  Vehicle_constructor C ;; mret C.

Definition new_factory (C : factory) : result factory :=
  VehicleFactory_constructor C ;; mret C.

Definition getType (this : vehicle) : result string :=
  match this with
  | Vehicle => Throw "getType() method must be implemented"
  | Car => Return "Car"
  | Bike => Return "Bike"
  end.

Definition createVehicle (this : factory) : result vehicle :=
  match this with
  | VehicleFactory => Throw "createVehicle() method must be implemented"
  | CarFactory => new_vehicle Car
  | BikeFactory => new_vehicle Bike
  end.

End FactoryMethod.

(** ** Observer pattern: [Subject], [StoreWithObserver], [Observer] and the
    concrete observers *)

Module Observer.

Inductive class : Type := Observer | EmailObserver | SMSObserver | AppObserver.

(** The store with its observer list, and the observer objects that exist
    ([heap] gives the class of each).  Observers are compared by
    reference. *)
Record t : Type := {
  heap : gmap loc class;
  observers : list loc;
  price : value
}.

(** [observer.update(data)], dispatched on the class of the receiver.  The
    invocation itself is recorded before the body runs. *)
Definition update (observer : loc) (data : value) : M t unit :=
  this ← getState;
  match heap this !! observer with
  | None => throw "TypeError: observer.update is not a function"
  | Some Observer =>
      emit (Invoke observer "update" data);;
      throw "update() method must be implemented"
  | Some EmailObserver =>
      emit (Invoke observer "update" data);;
      console_log [Str "Email notification: Price updated to "; Val data]
  | Some SMSObserver =>
      emit (Invoke observer "update" data);;
      console_log [Str "SMS notification: Price updated to "; Val data]
  | Some AppObserver =>
      emit (Invoke observer "update" data);;
      console_log [Str "App notification: Price updated to "; Val data]
  end.

(** [array.indexOf(x)]: the first index holding [x], or [-1]. *)
Fixpoint indexOf_from (x : loc) (array : list loc) (i : Z) : Z :=
  match array with
  | [] => (-1)%Z
  | y :: rest => if decide (y = x) then i else indexOf_from x rest (i + 1)%Z
  end.

Definition indexOf (x : loc) (array : list loc) : Z := indexOf_from x array 0.

(** [array.splice(index, 1)] for an index that is not negative. *)
Definition splice1 (index : Z) (array : list loc) : list loc :=
  take (Z.to_nat index) array ++ drop (S (Z.to_nat index)) array.

Definition attach (observer : loc) : M t unit :=
  this ← getState;
  putState {| heap := heap this;
              observers := observers this ++ [observer];
              price := price this |}.

Definition detach (observer : loc) : M t unit :=
  this ← getState;
  let index := indexOf observer (observers this) in
  if (index >? -1)%Z then
    putState {| heap := heap this;
                observers := splice1 index (observers this);
                price := price this |}
  else mret tt.

Definition notify (data : value) : M t unit :=
  this ← getState;
  forEach (fun observer => update observer data) (observers this).

Definition setPrice (new_price : value) : M t unit :=
  this ← getState;
  putState {| heap := heap this;
              observers := observers this;
              price := new_price |};;
  notify new_price.

(** A driver is a sequence of calls on one store; an exception that leaves
    a call ends the script. *)
Inductive call : Type :=
| Attach (observer : loc)
| Detach (observer : loc)
| Notify (data : value)
| SetPrice (new_price : value).

Definition exec (c : call) : M t unit :=
  match c with
  | Attach o => attach o
  | Detach o => detach o
  | Notify data => notify data
  | SetPrice p => setPrice p
  end.

Definition run (script : list call) : M t unit := forEach exec script.

(** An observer of one of the three concrete classes, whose [update]
    prints and returns. *)
Definition concrete (store : t) (observer : loc) : Prop :=
  ∃ c, heap store !! observer = Some c ∧ c ≠ Observer.

End Observer.

(** ** Singleton: [Database] *)

Module Database.

Record t : Type := { connectionString : string; connected : bool }.

(** The static property [Database.instance] ([None] while it is
    [undefined]) and the [Database] objects that were initialised. *)
Record state : Type := { instance : option loc; heap : gmap loc t }.

Definition initial : state := {| instance := None; heap := ∅ |}.

(** [new Database()].  When [Database.instance] is set the constructor
    returns it, and the object [new] had prepared is dropped without ever
    being initialised or handed out; it is not recorded in [heap]. *)
Definition constructor : M state value :=
  static ← getState;
  match instance static with
  | Some existing => mret (VRef existing)
  | None =>
      let this := fresh (dom (heap static)) in
      let object := {| connectionString := "mongodb://localhost:27017/mydb";
                       connected := false |} in
      putState {| instance := Some this;
                  heap := <[this := object]> (heap static) |};;
      mret (VRef this)
  end.

Definition getInstance : M state value :=
  static ← getState;
  match instance static with
  | Some _ => mret tt
  | None =>
      created ← constructor;
      static ← getState;
      putState {| instance := match created with
                              | VRef l => Some l
                              | _ => None
                              end;
                  heap := heap static |}
  end;;
  static ← getState;
  mret (match instance static with
        | Some l => VRef l
        | None => VUndefined
        end).

Definition connect (this : loc) : M state value :=
  static ← getState;
  match heap static !! this with
  | None => throw "TypeError: not a Database"
  | Some object =>
      if connected object then
        console_log [Str "Already connected to database"];;
        mret VUndefined
      else
        console_log [Str "Connecting to database: ";
                     Val (VString (connectionString object))];;
        putState {| instance := instance static;
                    heap := <[this := {| connectionString := connectionString object;
                                         connected := true |}]> (heap static) |};;
        mret VUndefined
  end.

Definition query (this : loc) (sql : string) : M state value :=
  static ← getState;
  match heap static !! this with
  | None => throw "TypeError: not a Database"
  | Some object =>
      if negb (connected object) then
        throw "Must connect to database first"
      else
        console_log [Str "Executing query: "; Val (VString sql)];;
        mret VUndefined
  end.

(** What client code can do with the class. *)
Inductive call : Type :=
| GetInstance
| New
| Connect (this : loc)
| Query (this : loc) (sql : string).

Definition exec (c : call) : M state value :=
  match c with
  | GetInstance => getInstance
  | New => constructor
  | Connect this => connect this
  | Query this sql => query this sql
  end.

(** The state after a sequence of calls, whether they returned or threw
    (a client may catch what [query] throws and go on). *)
Definition after (script : list call) (static : state) : state :=
  fold_left (fun s c => final (exec c s)) script static.

(** The calls that hand out a [Database]. *)
Definition obtains (c : call) : bool :=
  match c with
  | GetInstance | New => true
  | _ => false
  end.

(** What holds of [Database.instance] and of the initialised objects in
    every state the class can be in: no object before the first instance,
    exactly the instance afterwards. *)
Definition single (static : state) : Prop :=
  match instance static with
  | None => heap static = ∅
  | Some i => dom (heap static) = {[i]}
  end.

End Database.

(** ** Client code of the proxy example *)

Module ProxyClient.

(** The calls the script makes on [proxyAccount]. *)
Inductive call : Type :=
| Deposit (amount : float)
| Withdraw (amount : float).

Definition exec {A : Type} {realAccount : IBankAccount.t A} (c : call)
  : M A value :=
  match c with
  | Deposit amount => BankAccountProxy.deposit amount
  | Withdraw amount => BankAccountProxy.withdraw amount
  end.

(** The wrapped account after a sequence of calls through the proxy. *)
Definition after {A : Type} {realAccount : IBankAccount.t A}
    (script : list call) (account : A) : A :=
  fold_left (fun s c => final (exec c s)) script account.

End ProxyClient.

(** ** Reading a trace *)

Definition is_invoke (e : event) : bool :=
  match e with
  | Invoke _ _ _ => true
  | Logged _ => false
  end.

(** The method invocations of a trace, and what it printed. *)
Definition invocations (trace : list event) : list event :=
  List.filter is_invoke trace.

Definition console (trace : list event) : list event :=
  List.filter (fun e => negb (is_invoke e)) trace.

(** ** Observer example: the store without the pattern, and the patterned
    store as the script sets it up *)

Module Store.

Record t : Type := { price : value }.

Definition constructor : t := {| price := VNumber 0 |}.

Definition setPrice (new_price : value) : M t unit :=
  putState {| price := new_price |};;
  console_log [Str "Email notification: Price updated to "; Val new_price];;
  console_log [Str "SMS notification: Price updated to "; Val new_price];;
  console_log [Str "App notification: Price updated to "; Val new_price].

End Store.

Module StoreWithObserver.

(** [new StoreWithObserver()], given the observer objects that exist. *)
Definition constructor (heap : gmap loc Observer.class) : Observer.t :=
  {| Observer.heap := heap;
     Observer.observers := [];
     Observer.price := VNumber 0 |}.

End StoreWithObserver.

(** ** Strategy example: the function without the pattern, the other
    strategies and the shopping cart *)

(** [processPayment(paymentType, amount, details)]; [details] is an object
    literal, read by destructuring (an absent property is [undefined]). *)
Definition processPayment (paymentType : string) (amount : float)
    (details : gmap string value) : M unit value :=
  if String.eqb paymentType "credit_card" then
    let cardNumber := default VUndefined (details !! "cardNumber") in
    let cvv := default VUndefined (details !! "cvv") in
    let expiryDate := default VUndefined (details !! "expiryDate") in
    console_log [Str "Paid "; Num amount; Str " using Credit Card: ";
                 Val cardNumber];;
    mret VUndefined
  else if String.eqb paymentType "paypal" then
    let email := default VUndefined (details !! "email") in
    let password := default VUndefined (details !! "password") in
    console_log [Str "Paid "; Num amount; Str " using PayPal account: ";
                 Val email];;
    mret VUndefined
  else
    throw "Unsupported payment type".

Module CreditCardStrategy.

Record t : Type := { cardNumber : value; cvv : value; dateOfExpiry : value }.

Definition constructor (cardNumber cvv dateOfExpiry : value) : t :=
  {| cardNumber := cardNumber; cvv := cvv; dateOfExpiry := dateOfExpiry |}.

Definition pay (amount : float) : M t value :=
  this ← getState;
  console_log [Str "Paid "; Num amount; Str " using Credit Card: ";
               Val (cardNumber this)];;
  mret VUndefined.

End CreditCardStrategy.

Module PayPalStrategy.

Record t : Type := { email : value; password : value }.

Definition constructor (email password : value) : t :=
  {| email := email; password := password |}.

Definition pay (amount : float) : M t value :=
  this ← getState;
  console_log [Str "Paid "; Num amount; Str " using PayPal: ";
               Val (email this)];;
  mret VUndefined.

End PayPalStrategy.

(** An object of the strategy hierarchy, and [pay] dispatched on its
    class. *)
Module PaymentStrategy.

Inductive t : Type :=
| Base
| CreditCard (s : CreditCardStrategy.t)
| PayPal (s : PayPalStrategy.t)
| Cash (s : CashStrategy.t).

(** A method of a class, run on an object of the hierarchy. *)
Definition on {A : Type} (wrap : A -> t) (method : M A value) (this : A)
  : result value * t * list event :=
  match method this with
  | (r, this', out) => (r, wrap this', out)
  end.

Definition pay (amount : float) : M t value :=
  fun this =>
    match this with
    | Base => (Throw "pay() method must be implemented", this, [])
    | CreditCard s => on CreditCard (CreditCardStrategy.pay amount) s
    | PayPal s => on PayPal (PayPalStrategy.pay amount) s
    | Cash s => on Cash (CashStrategy.pay amount) s
    end.

End PaymentStrategy.

(** The cart holds a reference to its strategy; the strategy objects live
    in a heap beside it, so that a strategy keeps its state while the cart
    points elsewhere. *)
Module ShoppingCart.

Record t : Type := { paymentStrategy : loc; amount : float }.

Record world : Type := { cart : t; heap : gmap loc PaymentStrategy.t }.

Definition constructor (paymentStrategy : loc) : t :=
  {| paymentStrategy := paymentStrategy; amount := 0%float |}.

Definition setPaymentStrategy (paymentStrategy : loc) : M world value :=
  w ← getState;
  putState {| cart := {| paymentStrategy := paymentStrategy;
                         amount := amount (cart w) |};
              heap := heap w |};;
  mret VUndefined.

Definition setAmount (amount : float) : M world value :=
  w ← getState;
  putState {| cart := {| paymentStrategy := paymentStrategy (cart w);
                         amount := amount |};
              heap := heap w |};;
  mret VUndefined.

Definition checkout : M world value :=
  fun w =>
    match heap w !! paymentStrategy (cart w) with
    | None => (Throw "TypeError: paymentStrategy.pay is not a function", w, [])
    | Some strategy =>
        match PaymentStrategy.pay (amount (cart w)) strategy with
        | (r, strategy', out) =>
            (r ;; mret VUndefined,
             {| cart := cart w;
                heap := <[paymentStrategy (cart w) := strategy']> (heap w) |},
             out)
        end
    end.

(** The calls the script makes on the cart. *)
Inductive call : Type :=
| SetPaymentStrategy (paymentStrategy : loc)
| SetAmount (amount : float)
| Checkout.

Definition exec (c : call) : M world value :=
  match c with
  | SetPaymentStrategy l => setPaymentStrategy l
  | SetAmount a => setAmount a
  | Checkout => checkout
  end.

(** The world after a sequence of calls, whether they returned or threw. *)
Definition after (script : list call) (w : world) : world :=
  fold_left (fun s c => final (exec c s)) script w.

(** No cash strategy that exists has a negative reserve. *)
Definition solvent (w : world) : Prop :=
  ∀ l s, heap w !! l = Some (PaymentStrategy.Cash s) →
         PrimFloat.ltb (CashStrategy.cashAmount s) 0 = false.

End ShoppingCart.

(** ** Singleton example: the state of the connection *)

Module Connection.

(** The database object at [i] is connected. *)
Definition connected_at (i : loc) (static : Database.state) : Prop :=
  ∃ object, Database.heap static !! i = Some object
            ∧ Database.connected object = true.

(** No object is connected. *)
Definition unconnected (static : Database.state) : Prop :=
  ∀ l object, Database.heap static !! l = Some object →
              Database.connected object = false.

End Connection.

(** ** Facade example: the client function *)

Definition buy (price : Q) : M unit value :=
  total ← ShopFacade.calculate price;
  console_log [Str "Total: "; num total];;
  mret VUndefined.

(** ** The open/closed example of the SOLID script: [DiscountWithoutOCP],
    [Order], [Discount], [RegularDiscount], [PremiumDiscount] *)

Module SOLID.

(** [v === "text"]. *)
Definition is_string (v : value) (text : string) : bool :=
  match v with
  | VString s => String.eqb s text
  | _ => false
  end.

(** The object literals [{ type: ..., price: ... }] of the first variant. *)
Module OrderLiteral.
Record t : Type := { type : value; price : Q }.
End OrderLiteral.

Module DiscountWithoutOCP.

(** A function body that ends without [return] yields [undefined]. *)
Definition calculateDiscount (order : OrderLiteral.t) : value :=
  if is_string (OrderLiteral.type order) "regular" then
    VNumber (OrderLiteral.price order * 0.1)
  else if is_string (OrderLiteral.type order) "premium" then
    VNumber (OrderLiteral.price order * 0.2)
  else VUndefined.

End DiscountWithoutOCP.

Module Order.

Record t : Type := { price : Q; date : value }.

(** [new Order(price)]; [now] is what [new Date()] yields at that time. *)
Definition constructor (price : Q) (now : value) : t :=
  {| price := price; date := now |}.

End Order.

Inductive discount_class : Type := Discount | RegularDiscount | PremiumDiscount.

(** [this.getDiscountRate()]: the base class declares no such method. *)
Definition getDiscountRate (this : discount_class) : result Q :=
  match this with
  | Discount => Throw "TypeError: this.getDiscountRate is not a function"
  | RegularDiscount => Return 0.1%Q
  | PremiumDiscount => Return 0.2%Q
  end.

Definition calculateDiscount (this : discount_class) (order : Order.t)
  : result value :=
  rate ← getDiscountRate this;
  mret (VNumber (Order.price order * rate)).

End SOLID.

(** * Properties *)

(** ** Prototype *)

Section PrototypeFacts.
Import Prototype.

Lemma alloc_fresh o h : h !! (alloc o h).1 = None.
Proof.
  unfold alloc; simpl. apply not_elem_of_dom. apply is_fresh.
Qed.

Lemma alloc_lookup o h : (alloc o h).2 !! (alloc o h).1 = Some o.
Proof. unfold alloc; simpl. apply lookup_insert_eq. Qed.

Lemma alloc_frame o h l :
  is_Some (h !! l) → (alloc o h).2 !! l = h !! l ∧ (alloc o h).1 ≠ l.
Proof.
  intros Hl. pose proof (alloc_fresh o h) as Hf.
  assert ((alloc o h).1 ≠ l) as Hne.
  { intros Heq. subst l. rewrite Hf in Hl. by destruct Hl. }
  split; [|done]. unfold alloc in *; simpl in *. by rewrite lookup_insert_ne.
Qed.

Lemma write_frame c l f v (h : gmap loc object) :
  c ≠ l → write c f v h !! l = h !! l.
Proof. intros Hne. unfold write. by rewrite lookup_alter_ne. Qed.

Lemma get_Rectangle_width w ht : get (Rectangle_constructor w ht) "width" = w.
Proof. reflexivity. Qed.

Lemma get_Rectangle_height w ht : get (Rectangle_constructor w ht) "height" = ht.
Proof. reflexivity. Qed.

Lemma get_Circle_radius r : get (Circle_constructor r) "radius" = r.
Proof. reflexivity. Qed.

(** Cloning an object that a constructor built allocates that very object
    again. *)
Lemma clone_constructed h l o :
  h !! l = Some o → constructed o → clone l h = Return (alloc o h).
Proof.
  intros Hl Ho. unfold clone. rewrite Hl.
  destruct Ho as [w ht | r]; simpl.
  - unfold new_Rectangle.
    by rewrite get_Rectangle_width, get_Rectangle_height.
  - unfold new_Circle. by rewrite get_Circle_radius.
Qed.

(** Cloning any [Rectangle], also one whose fields were assigned since it
    was built, copies [width] and [height] as they are now. *)
Lemma clone_Rectangle_fields h l o :
  h !! l = Some o → class_of o = Rectangle →
  ∃ c h',
    clone l h = Return (c, h') ∧ c ≠ l
    ∧ read c "width" h' = read l "width" h
    ∧ read c "height" h' = read l "height" h
    ∧ read c "type" h' = VString "Rectangle".
Proof.
  intros Hl Hclass.
  set (copy := Rectangle_constructor (get o "width") (get o "height")).
  exists (alloc copy h).1, (alloc copy h).2.
  destruct (alloc_frame copy h l) as [_ Hne]; [by eexists|].
  unfold clone, read. rewrite Hl, Hclass, alloc_lookup.
  by split_and!.
Qed.

End PrototypeFacts.


Section PrototypeClaims.
Import Prototype.

(** C1. For every [Rectangle(width, height)] and every [Circle(radius)]
    stored at [l], [l.clone()] returns a reference [c] to a new object:
    [c] differs from [l] and was not in use before; the clone has the
    class and every field ([width], [height], [radius], [type]) of the
    original; and after any assignment [c.f = v] to the clone every field
    of the original still reads as it did, while the clone reads [v]. *)
Theorem clone_independent (h : gmap loc object) (l : loc) (o : object) :
  h !! l = Some o → constructed o →
  ∃ c h',
    clone l h = Return (c, h')
    ∧ c ≠ l ∧ h !! c = None
    ∧ h' !! c = Some o
    ∧ (∀ f, read c f h' = read l f h)
    ∧ h' !! l = Some o
    ∧ ∀ f v,
        write c f v h' !! l = Some o
        ∧ (∀ g, read l g (write c f v h') = read l g h)
        ∧ read c f (write c f v h') = v.
Proof.
  intros Hl Ho.
  destruct (alloc o h) as [c h'] eqn:Halloc.
  pose proof (alloc_fresh o h) as Hfresh.
  pose proof (alloc_lookup o h) as Hc.
  destruct (alloc_frame o h l) as [Hframe Hne]; [by eexists|].
  rewrite Halloc in *; simpl in *.
  exists c, h'. rewrite (clone_constructed h l o Hl Ho), Halloc.
  assert (h' !! l = Some o) as Hl' by congruence.
  repeat split; try done.
  - intros f. unfold read. by rewrite Hc, Hl.
  - by rewrite write_frame.
  - intros g. unfold read. by rewrite write_frame, Hl', Hl.
  - unfold read, write. rewrite lookup_alter_eq, Hc. simpl.
    unfold get, set. simpl. by rewrite lookup_insert_eq.
Qed.

Lemma clone_independent_witness :
  let h := (new_Rectangle (VNumber 10) (VNumber 20) ∅).2 in
  ∃ c h',
    clone 1%positive h = Return (c, h')
    ∧ c ≠ 1%positive ∧ h !! c = None
    ∧ h' !! c = Some (Rectangle_constructor (VNumber 10) (VNumber 20))
    ∧ (∀ f, read c f h' = read 1%positive f h)
    ∧ h' !! 1%positive = Some (Rectangle_constructor (VNumber 10) (VNumber 20))
    ∧ ∀ f v,
        write c f v h' !! 1%positive
          = Some (Rectangle_constructor (VNumber 10) (VNumber 20))
        ∧ (∀ g, read 1%positive g (write c f v h') = read 1%positive g h)
        ∧ read c f (write c f v h') = v.
Proof.
  intros h.
  apply (clone_independent h 1%positive
           (Rectangle_constructor (VNumber 10) (VNumber 20))).
  - reflexivity.
  - constructor.
Defined.

End PrototypeClaims.

(** ** Doubles *)

Section Doubles.
Local Open Scope Z_scope.

(** The number of binary digits of a mantissa brackets it. *)
Lemma digits2_pos_bounds (m : positive) :
  2 ^ (Zpos (digits2_pos m) - 1) <= Zpos m < 2 ^ Zpos (digits2_pos m).
Proof.
  induction m as [p IH | p IH |]; cbn [digits2_pos].
  - rewrite Pos2Z.inj_succ. change (Zpos p~1) with (2 * Zpos p + 1).
    replace (Z.succ (Zpos (digits2_pos p)) - 1)
      with (Z.succ (Zpos (digits2_pos p) - 1)) by lia.
    rewrite !Z.pow_succ_r by lia.
    destruct IH as [IHl IHu]. revert IHl IHu.
    generalize (2 ^ (Zpos (digits2_pos p) - 1)), (2 ^ Zpos (digits2_pos p)).
    intros; lia.
  - rewrite Pos2Z.inj_succ. change (Zpos p~0) with (2 * Zpos p).
    replace (Z.succ (Zpos (digits2_pos p)) - 1)
      with (Z.succ (Zpos (digits2_pos p) - 1)) by lia.
    rewrite !Z.pow_succ_r by lia.
    destruct IH as [IHl IHu]. revert IHl IHu.
    generalize (2 ^ (Zpos (digits2_pos p) - 1)), (2 ^ Zpos (digits2_pos p)).
    intros; lia.
  - cbn. lia.
Qed.

(** Aligning a mantissa to a lower exponent multiplies it by a power of
    two. *)
Lemma iter_xO_shift (m d : positive) :
  Zpos (Pos.iter xO m d) = Zpos m * 2 ^ Zpos d.
Proof.
  induction d as [|d IH] using Pos.peano_ind.
  - cbn [Pos.iter]. change (Zpos m~0) with (2 * Zpos m). lia.
  - rewrite Pos.iter_succ.
    change (Zpos (Pos.iter xO m d)~0) with (2 * Zpos (Pos.iter xO m d)).
    rewrite IH, Pos2Z.inj_succ.
    rewrite Z.pow_succ_r by lia. lia.
Qed.

Lemma shl_align_value (m : positive) (e ez : Z) :
  ez <= e -> Zpos (fst (shl_align m e ez)) = Zpos m * 2 ^ (e - ez).
Proof.
  intros Hle. unfold shl_align.
  destruct (ez - e) as [|d|d] eqn:Hd; cbn [fst].
  - replace (e - ez) with 0 by lia. lia.
  - lia.
  - rewrite iter_xO_shift. f_equal. f_equal. lia.
Qed.

(** What it means for a finite double to be in canonical form: the
    exponent is in range, the mantissa has at most 53 digits, and exactly
    53 unless the number is subnormal. *)
Lemma valid_finite (s : bool) (m : positive) (e : Z) :
  valid_binary (S754_finite s m e) = true ->
  -1074 <= e <= 971
  /\ Zpos (digits2_pos m) <= 53
  /\ (-1074 < e -> Zpos (digits2_pos m) = 53).
Proof.
  cbn [SpecFloat.valid_binary]. unfold bounded, canonical_mantissa, fexp.
  unfold SpecFloat.emin, prec, emax.
  intros H. apply andb_prop in H as [Hc Hb].
  apply Z.eqb_eq in Hc. apply Z.leb_le in Hb. lia.
Qed.

(** On canonical finite doubles the comparison of the specification is
    the comparison of the integers they stand for. *)
Lemma SFcompare_finite (sx sy : bool) (mx my : positive) (ex ey : Z) :
  valid_binary (S754_finite sx mx ex) = true ->
  valid_binary (S754_finite sy my ey) = true ->
  SFcompare (S754_finite sx mx ex) (S754_finite sy my ey)
  = Some (aligned sx mx ex (Z.min ex ey) ?= aligned sy my ey (Z.min ex ey)).
Proof.
  intros Hx Hy.
  apply valid_finite in Hx as (Hex & Hdx & Hnx).
  apply valid_finite in Hy as (Hey & Hdy & Hny).
  pose proof (digits2_pos_bounds mx) as Hmx.
  pose proof (digits2_pos_bounds my) as Hmy.
  unfold aligned.
  rewrite !shl_align_value by lia.
  assert (Hord : forall (m m' : positive) (e e' : Z),
            e < e' -> Zpos (digits2_pos m) <= 53 ->
            Zpos (digits2_pos m') = 53 ->
            Zpos m < Zpos m' * 2 ^ (e' - e)).
  { intros m m' e e' Hlt Hd Hd'.
    pose proof (digits2_pos_bounds m) as Hm.
    pose proof (digits2_pos_bounds m') as Hm'.
    rewrite Hd' in Hm'.
    assert (2 ^ Zpos (digits2_pos m) <= 2 ^ 53)
      by (apply Z.pow_le_mono_r; lia).
    assert (2 ^ 1 <= 2 ^ (e' - e)) by (apply Z.pow_le_mono_r; lia).
    change (2 ^ 1) with 2 in *. change (2 ^ (53 - 1)) with (2 ^ 52) in *.
    assert (2 ^ 53 = 2 * 2 ^ 52) by reflexivity.
    nia. }
  cbn [SFcompare]. f_equal.
  destruct (Z.compare_spec ex ey) as [Heq | Hlt | Hgt].
  - subst ey. rewrite Z.min_id, Z.sub_diag, !Z.mul_1_r.
    change (Pos.compare_cont Eq mx my) with (Zpos mx ?= Zpos my).
    destruct sx, sy; reflexivity.
  - rewrite Z.min_l by lia. rewrite Z.sub_diag, Z.mul_1_r.
    pose proof (Hord mx my ex ey Hlt Hdx (Hny ltac:(lia))).
    destruct sx, sy; cbn [cond_Zopp]; symmetry.
    + apply Z.compare_gt_iff. lia.
    + apply Z.compare_lt_iff. lia.
    + apply Z.compare_gt_iff. lia.
    + apply Z.compare_lt_iff. lia.
  - rewrite Z.min_r by lia. rewrite Z.sub_diag, Z.mul_1_r.
    pose proof (Hord my mx ey ex ltac:(lia) Hdy (Hnx ltac:(lia))).
    destruct sx, sy; cbn [cond_Zopp]; symmetry.
    + apply Z.compare_lt_iff. lia.
    + apply Z.compare_lt_iff. lia.
    + apply Z.compare_gt_iff. lia.
    + apply Z.compare_gt_iff. lia.
Qed.

(** Rounding keeps the sign: what is rounded from a non-negative integer
    is not negative. *)
Lemma binary_round_false_not_negative (m : positive) (e : Z) :
  SFltb (binary_round prec emax false m e) (S754_zero false) = false.
Proof.
  unfold binary_round, binary_round_aux.
  destruct (shl_align _ _ _) as [mz ez].
  destruct (shr_fexp _ _ _ _ _) as [mrs' e'].
  destruct (shr_fexp _ _ _ _ _) as [mrs'' e''].
  destruct (shr_m mrs''); [reflexivity | | reflexivity].
  destruct (Z.leb _ _); reflexivity.
Qed.

Lemma binary_normalize_not_negative (m e : Z) :
  0 <= m ->
  SFltb (binary_normalize prec emax m e false) (S754_zero false) = false.
Proof.
  intros Hm. destruct m as [|p|p]; [reflexivity | | lia].
  apply binary_round_false_not_negative.
Qed.

(** Shifting right halves the mantissa, so rounding a non-zero integer
    at an exponent in range never gives zero. *)
Lemma shr_1_half (mrs : shr_record) :
  0 <= shr_m mrs -> shr_m (shr_1 mrs) = shr_m mrs / 2.
Proof.
  destruct mrs as [m r s]. cbn [shr_m shr_1]. intros Hm.
  destruct m as [|[p|p|]|p]; cbn [shr_m].
  - reflexivity.
  - change (Zpos p~1) with (2 * Zpos p + 1).
    apply Z.div_unique with 1; lia.
  - change (Zpos p~0) with (2 * Zpos p).
    apply Z.div_unique with 0; lia.
  - reflexivity.
  - lia.
Qed.

Lemma iter_shr_1_shift (p : positive) (mrs : shr_record) :
  0 <= shr_m mrs ->
  shr_m (SpecFloat.iter_pos shr_1 p mrs) = shr_m mrs / 2 ^ Zpos p.
Proof.
  revert mrs. induction p as [p IH | p IH |]; intros mrs Hm; cbn [SpecFloat.iter_pos].
  - assert (0 <= shr_m (shr_1 mrs))
      by (rewrite shr_1_half by assumption; apply Z.div_pos; lia).
    assert (0 <= shr_m (SpecFloat.iter_pos shr_1 p (shr_1 mrs)))
      by (rewrite IH by assumption; apply Z.div_pos; [assumption | apply Z.pow_pos_nonneg; lia]).
    rewrite !IH, shr_1_half by assumption.
    assert (0 < 2 ^ Zpos p) by (apply Z.pow_pos_nonneg; lia).
    rewrite !Z.div_div by lia.
    change (Zpos p~1) with (2 * Zpos p + 1).
    replace (2 * Zpos p + 1) with (1 + Zpos p + Zpos p) by lia.
    rewrite !Z.pow_add_r by lia. f_equal. change (2 ^ 1) with 2. ring.
  - assert (0 <= shr_m (SpecFloat.iter_pos shr_1 p mrs))
      by (rewrite IH by assumption; apply Z.div_pos; [assumption | apply Z.pow_pos_nonneg; lia]).
    rewrite !IH by assumption.
    assert (0 < 2 ^ Zpos p) by (apply Z.pow_pos_nonneg; lia).
    rewrite !Z.div_div by lia.
    change (Zpos p~0) with (2 * Zpos p).
    replace (2 * Zpos p) with (Zpos p + Zpos p) by lia.
    rewrite !Z.pow_add_r by lia. reflexivity.
  - rewrite shr_1_half by assumption. reflexivity.
Qed.

Lemma shr_record_of_loc_m (m : Z) (l : location) :
  shr_m (shr_record_of_loc m l) = m.
Proof. destruct l as [|[]]; reflexivity. Qed.

Lemma shr_fexp_positive (m : positive) (e : Z) (l : location) :
  -1074 <= e ->
  0 < shr_m (fst (shr_fexp prec emax (Zpos m) e l))
  /\ -1074 <= snd (shr_fexp prec emax (Zpos m) e l).
Proof.
  intros He. unfold shr_fexp, shr, fexp, SpecFloat.emin, prec, emax.
  cbn [Zdigits2].
  pose proof (digits2_pos_bounds m) as Hm.
  destruct (Z.max (Zpos (digits2_pos m) + e - 53) (3 - 1024 - 53) - e)
    as [|p|p] eqn:Hn; cbn [fst snd];
    rewrite ?shr_record_of_loc_m; try lia.
  rewrite iter_shr_1_shift by (rewrite shr_record_of_loc_m; lia).
  rewrite shr_record_of_loc_m. split; [|lia].
  apply Z.div_str_pos. split; [apply Z.pow_pos_nonneg; lia|].
  apply Z.le_trans with (2 ^ (Zpos (digits2_pos m) - 1)); [|lia].
  apply Z.pow_le_mono_r; lia.
Qed.

Lemma round_nearest_even_positive (m : Z) (l : location) :
  0 < m -> 0 < round_nearest_even m l.
Proof.
  intros Hm. destruct l as [|[]]; cbn [round_nearest_even]; try lia.
  destruct (Z.even m); lia.
Qed.

Lemma binary_round_aux_true_negative (p : positive) (e : Z) (l : location) :
  -1074 <= e ->
  SFltb (binary_round_aux prec emax true (Zpos p) e l) (S754_zero false) = true.
Proof.
  intros He. unfold binary_round_aux.
  destruct (shr_fexp_positive p e l He) as [Hm' He'].
  destruct (shr_fexp prec emax (Zpos p) e l) as [mrs' e']. cbn [fst snd] in *.
  pose proof (round_nearest_even_positive _ (loc_of_shr_record mrs') Hm') as Hr.
  destruct (round_nearest_even (shr_m mrs') (loc_of_shr_record mrs'))
    as [|q|q]; try lia.
  destruct (shr_fexp_positive q e' loc_Exact He') as [Hm'' _].
  destruct (shr_fexp prec emax (Zpos q) e' loc_Exact) as [mrs'' e''].
  cbn [fst] in Hm''.
  destruct (shr_m mrs''); try lia.
  destruct (Z.leb _ _); reflexivity.
Qed.

Lemma binary_round_true_negative (p : positive) (e : Z) :
  -1074 <= e ->
  SFltb (binary_round prec emax true p e) (S754_zero false) = true.
Proof.
  intros He. unfold binary_round.
  assert (-1074 <= snd (shl_align p e (fexp prec emax (Zpos (digits2_pos p) + e))))
    as Hez.
  { unfold shl_align, fexp, SpecFloat.emin, prec, emax.
    destruct (Z.max (Zpos (digits2_pos p) + e - 53) (3 - 1024 - 53) - e);
      cbn [snd]; lia. }
  destruct (shl_align _ _ _) as [mz ez]. cbn [snd] in Hez.
  apply binary_round_aux_true_negative; assumption.
Qed.

Lemma binary_normalize_negative (m e : Z) :
  m < 0 -> -1074 <= e ->
  SFltb (binary_normalize prec emax m e false) (S754_zero false) = true.
Proof.
  intros Hm He. destruct m as [|p|p]; try lia.
  apply binary_round_true_negative; assumption.
Qed.

(** Comparison, addition and subtraction of the specification. *)
Lemma SFcompare_swap (x y : spec_float) :
  SFcompare y x = option_map CompOpp (SFcompare x y).
Proof.
  destruct x as [sx|sx| |sx mx ex], y as [sy|sy| |sy my ey];
    try reflexivity;
    try (destruct sx; reflexivity);
    try (destruct sy; reflexivity);
    try (destruct sx, sy; reflexivity).
  cbn [SFcompare option_map]. f_equal.
  rewrite (Z.compare_antisym ex ey).
  change (Pos.compare_cont Eq my mx) with (Pos.compare my mx).
  change (Pos.compare_cont Eq mx my) with (Pos.compare mx my).
  rewrite (Pos.compare_antisym mx my).
  destruct sx, sy, (ex ?= ey), (mx ?= my)%positive; reflexivity.
Qed.

Lemma SFleb_not_SFltb (x y : spec_float) :
  SFleb x y = true -> SFltb y x = false.
Proof.
  unfold SFleb, SFltb. rewrite (SFcompare_swap x y).
  destruct (SFcompare x y) as [[]|]; cbn; congruence.
Qed.

Lemma SFltb_SFleb (x y : spec_float) :
  SFltb x y = true -> SFleb x y = true.
Proof.
  unfold SFleb, SFltb. destruct (SFcompare x y) as [[]|]; congruence.
Qed.

Lemma SFadd_not_negative (x y : spec_float) :
  SFltb x (S754_zero false) = false ->
  SFltb y (S754_zero false) = false ->
  SFltb (SF64add x y) (S754_zero false) = false.
Proof.
  destruct x as [sx|sx| |sx mx ex], y as [sy|sy| |sy my ey];
    try (destruct sx); try (destruct sy); try reflexivity;
    try discriminate; auto.
  intros _ _. unfold SF64add, SFadd. apply binary_normalize_not_negative.
  cbn [cond_Zopp]. lia.
Qed.

Lemma SFsub_not_negative (x y : spec_float) :
  valid_binary x = true -> valid_binary y = true ->
  SFltb x (S754_zero false) = false ->
  SFltb x y = false ->
  SFltb (SF64sub x y) (S754_zero false) = false.
Proof.
  intros Hx Hy.
  destruct x as [sx|sx| |sx mx ex], y as [sy|sy| |sy my ey];
    try (destruct sx); try (destruct sy); try reflexivity;
    try discriminate; auto.
  all: intros _; unfold SFltb; rewrite (SFcompare_finite _ _ _ _ _ _ Hx Hy).
  all: intros Hcmp; unfold SF64sub, SFsub.
  all: apply binary_normalize_not_negative.
  all: match type of Hcmp with
       | match ?a ?= ?b with _ => _ end = false =>
           destruct (Z.compare_spec a b); try discriminate
       end.
  all: unfold aligned in *; cbn [cond_Zopp] in *; lia.
Qed.

Lemma SFadd_negative (x y : spec_float) :
  valid_binary x = true -> valid_binary y = true ->
  SFltb y (SFopp x) = true ->
  SFltb (SF64add x y) (S754_zero false) = true.
Proof.
  intros Hx Hy.
  destruct x as [sx|sx| |sx mx ex], y as [sy|sy| |sy my ey];
    try (destruct sx); try (destruct sy); try reflexivity;
    try discriminate; auto.
  all: cbn [SFopp negb]; unfold SFltb.
  all: match goal with
       | |- context [SFcompare (S754_finite ?s ?m ?e) (S754_finite ?s' ?m' ?e')] =>
           rewrite (SFcompare_finite s s' m m' e e' Hy Hx)
       end.
  all: intros Hcmp; unfold SF64add, SFadd.
  all: apply valid_finite in Hx as (Hex & _ & _).
  all: apply valid_finite in Hy as (Hey & _ & _).
  all: apply binary_normalize_negative; [|lia].
  all: rewrite (Z.min_comm ex ey).
  all: match type of Hcmp with
       | match ?a ?= ?b with _ => _ end = true =>
           destruct (Z.compare_spec a b); try discriminate
       end.
  all: unfold aligned in *; cbn [cond_Zopp] in *; lia.
Qed.

Local Open Scope float_scope.

(** The same facts on the primitive doubles, through the specification
    of the primitive operations. *)
Lemma Prim2SF_zero : Prim2SF 0 = S754_zero false.
Proof. reflexivity. Qed.

Lemma float_leb_not_ltb (x y : float) : (x <=? y) = true -> (y <? x) = false.
Proof. rewrite leb_spec, ltb_spec. apply SFleb_not_SFltb. Qed.

Lemma float_ltb_leb (x y : float) : (x <? y) = true -> (x <=? y) = true.
Proof. rewrite leb_spec, ltb_spec. apply SFltb_SFleb. Qed.

Lemma float_above_zero (c x : float) :
  (0 <=? c) = true -> (c <? x) = true -> (x <=? 0) = false.
Proof.
  rewrite !leb_spec, ltb_spec, Prim2SF_zero.
  destruct (Prim2SF c) as [sc|sc| |sc mc ec], (Prim2SF x) as [sx|sx| |sx mx ex];
    try (destruct sc); try (destruct sx); try reflexivity;
    try discriminate; auto.
Qed.

Lemma float_sub_not_negative (x y : float) :
  (x <? 0) = false -> (x <? y) = false -> (x - y <? 0) = false.
Proof.
  rewrite !ltb_spec, sub_spec, Prim2SF_zero.
  apply SFsub_not_negative; apply Prim2SF_valid.
Qed.

Lemma float_add_not_negative (x y : float) :
  (x <? 0) = false -> (y <? 0) = false -> (x + y <? 0) = false.
Proof.
  rewrite !ltb_spec, add_spec, Prim2SF_zero. apply SFadd_not_negative.
Qed.

Lemma float_add_negative (x y : float) :
  (y <? - x) = true -> (x + y <? 0) = true.
Proof.
  rewrite !ltb_spec, add_spec, opp_spec, Prim2SF_zero.
  apply SFadd_negative; apply Prim2SF_valid.
Qed.

Lemma float_not_leb_not_ltb (x y : float) :
  (x <=? y) = false -> (x <? y) = false.
Proof.
  intros Hle. destruct (x <? y) eqn:Hlt; [|reflexivity].
  apply float_ltb_leb in Hlt. congruence.
Qed.

End Doubles.

(** ** Running method bodies *)

Ltac run_M :=
  unfold outcome, final, events, mbind, mret, M_bind, M_ret, bind, ret,
    throw, getState, putState, console_log, emit in *;
  cbn in *.

(** Membership in an explicit list, case by case. *)
Ltac inv_elem_of H :=
  repeat (apply elem_of_cons in H as [H | H]; [congruence|]);
  by apply elem_of_nil in H.

(** ** Proxy *)

Section ProxyClaims.
Local Open Scope float_scope.

Lemma RealBankAccount_withdraw_eq (amount : float) (this : RealBankAccount.t) :
  RealBankAccount.withdraw amount this
  = if leb amount (RealBankAccount.balance this) then
      let balance := RealBankAccount.balance this - amount in
      (Return (VBoolean true), {| RealBankAccount.balance := balance |},
       [Logged [Str "Withdrawn "; Num amount; Str ". New balance: ";
               Num balance]])
    else (Return (VBoolean false), this, []).
Proof.
  unfold RealBankAccount.withdraw. run_M.
  by destruct (leb amount (RealBankAccount.balance this)).
Qed.

(** The first example, without a proxy: the last withdrawal is refused. *)
Example account_script :
  (BankAccount.deposit 50;;
   BankAccount.withdraw 70;;
   BankAccount.withdraw 100) {| BankAccount.balance := 100 |}
  = (Return VUndefined, {| BankAccount.balance := 80 |},
     [Logged [Str "Deposited "; Num 50; Str ". New balance: "; Num 150];
      Logged [Str "Withdrawn "; Num 70; Str ". New balance: "; Num 80];
      Logged [Str "Insufficient funds!"]]).
Proof. reflexivity. Qed.

(** The script's own run of the real account behind the proxy:
    [deposit(50)], [deposit(-50)], [withdraw(70)], [withdraw(1500)] and
    [withdraw(100)] on a balance of 100 leave 80 and print nine lines. *)
Example proxy_script :
  (BankAccountProxy.deposit 50;;
   BankAccountProxy.deposit (-50);;
   BankAccountProxy.withdraw 70;;
   BankAccountProxy.withdraw 1500;;
   BankAccountProxy.withdraw 100) {| RealBankAccount.balance := 100 |}
  = (Return VUndefined, {| RealBankAccount.balance := 80 |},
     [Logged [Str "Proxy: Logging deposit transaction"];
      Logged [Str "Deposited "; Num 50; Str ". New balance: "; Num 150];
      Logged [Str "Proxy: Invalid amount"];
      Logged [Str "Proxy: Checking withdrawal limit"];
      Logged [Str "Withdrawn "; Num 70; Str ". New balance: "; Num 80];
      Logged [Str "Proxy: Checking withdrawal limit"];
      Logged [Str "Proxy: Cannot withdraw more than 1000 at once"];
      Logged [Str "Proxy: Checking withdrawal limit"];
      Logged [Str "Proxy: Insufficient funds!"]]).
Proof. reflexivity. Qed.

(** The account computes in doubles: a deposit of [1] on [2 ^ 53] is lost,
    a withdrawal of [1000] from [100000000000000016] takes [1008], and a
    deposit of [NaN] passes the proxy's validation and leaves [NaN]. *)
Example accounts_round :
  RealBankAccount.balance
    (final (BankAccountProxy.deposit 1
              {| RealBankAccount.balance := 9007199254740992 |}))
  = 9007199254740992
  ∧ RealBankAccount.balance
      (final (BankAccountProxy.withdraw 1000
                {| RealBankAccount.balance := 100000000000000016 |}))
    = 99999999999999008
  ∧ is_nan (RealBankAccount.balance
              (final (BankAccountProxy.deposit nan
                        {| RealBankAccount.balance := 100 |}))) = true.
Proof. by split_and!. Qed.

(** C5 fails as stated: a withdrawal does not always take the amount off
    the balance.  The balance becomes the double nearest to the
    difference, and on a balance of [1e17] a withdrawal of [1] returns
    [true] and leaves the balance at [1e17]. *)
Lemma withdraw_leaves_large_balance :
  leb 1 1e17 = true
  ∧ RealBankAccount.withdraw 1 {| RealBankAccount.balance := 1e17 |}
    = (Return (VBoolean true), {| RealBankAccount.balance := 1e17 |},
       [Logged [Str "Withdrawn "; Num 1; Str ". New balance: "; Num 1e17]]).
Proof. by split. Qed.

(** C5, amended. [RealBankAccount.withdraw(amount)] returns [true] exactly
    when [amount <= balance]; in that case the new balance is the double
    [balance - amount], the difference rounded to the nearest double;
    otherwise it returns [false] and the account is unchanged; and a
    balance that is not negative never becomes negative. *)
Theorem RealBankAccount_withdraw_spec (amount : float) (this : RealBankAccount.t) :
  let r := RealBankAccount.withdraw amount this in
  (outcome r = Return (VBoolean true)
   ↔ leb amount (RealBankAccount.balance this) = true)
  ∧ (leb amount (RealBankAccount.balance this) = true →
     outcome r = Return (VBoolean true)
     ∧ RealBankAccount.balance (final r)
       = RealBankAccount.balance this - amount)
  ∧ (leb amount (RealBankAccount.balance this) = false →
     outcome r = Return (VBoolean false) ∧ final r = this)
  ∧ (leb 0 (RealBankAccount.balance this) = true →
     (RealBankAccount.balance (final r) <? 0) = false).
Proof.
  cbv zeta. rewrite RealBankAccount_withdraw_eq.
  destruct this as [balance]. cbn [RealBankAccount.balance].
  destruct (leb amount balance) eqn:E; cbn.
  - split_and!; try done. intros Hnn.
    apply float_sub_not_negative; by apply float_leb_not_ltb.
  - split_and!; try done. intros Hnn. by apply float_leb_not_ltb.
Qed.

Lemma RealBankAccount_withdraw_spec_witness :
  leb 70 100 = true
  ∧ outcome (RealBankAccount.withdraw 70 {| RealBankAccount.balance := 100 |})
    = Return (VBoolean true)
  ∧ RealBankAccount.balance
      (final (RealBankAccount.withdraw 70 {| RealBankAccount.balance := 100 |}))
    = 100 - 70.
Proof.
  assert (leb 70 100 = true) as H by reflexivity.
  split; [exact H|].
  exact (proj1 (proj2 (RealBankAccount_withdraw_spec
                         70 {| RealBankAccount.balance := 100 |})) H).
Defined.

(** C2. For every amount above 1000 the proxy's [withdraw] returns after
    its two log lines and leaves the object behind [realAccount] as it
    was, whatever implementation of the interface that object is: none of
    its methods runs.  For a [RealBankAccount] the balance is therefore
    unchanged, also when the balance covers the amount and a direct
    [withdraw] would have succeeded. *)
Theorem proxy_withdraw_over_limit (amount : float) :
  gtb amount 1000 = true →
  (∀ (A : Type) (realAccount : IBankAccount.t A) (account : A),
     BankAccountProxy.withdraw amount account
     = (Return VUndefined, account,
        [Logged [Str "Proxy: Checking withdrawal limit"];
         Logged [Str "Proxy: Cannot withdraw more than 1000 at once"]]))
  ∧ (∀ this : RealBankAccount.t,
       RealBankAccount.balance (final (BankAccountProxy.withdraw amount this))
       = RealBankAccount.balance this
       ∧ (leb amount (RealBankAccount.balance this) = true →
          outcome (RealBankAccount.withdraw amount this)
          = Return (VBoolean true))).
Proof.
  intros Hlimit.
  assert (∀ (A : Type) (realAccount : IBankAccount.t A) (account : A),
     BankAccountProxy.withdraw amount account
     = (Return VUndefined, account,
        [Logged [Str "Proxy: Checking withdrawal limit"];
         Logged [Str "Proxy: Cannot withdraw more than 1000 at once"]])) as Hgen.
  { intros A realAccount account.
    unfold BankAccountProxy.withdraw, BankAccountProxy.validateTransaction.
    assert (leb amount 0 = false) as ->
      by by apply (float_above_zero 1000 amount).
    by rewrite Hlimit. }
  split; [exact Hgen|].
  intros this. split.
  - by rewrite Hgen.
  - intros Hle. rewrite RealBankAccount_withdraw_eq. by rewrite Hle.
Qed.

Lemma proxy_withdraw_over_limit_witness :
  gtb 1500 1000 = true
  ∧ RealBankAccount.balance
      (final (BankAccountProxy.withdraw 1500 {| RealBankAccount.balance := 2000 |}))
    = 2000.
Proof.
  assert (gtb 1500 1000 = true) as H by reflexivity.
  split; [exact H|].
  exact (proj1 (proj2 (proxy_withdraw_over_limit 1500 H)
                  {| RealBankAccount.balance := 2000 |})).
Defined.

(** C8. For every amount that is zero or negative, the proxy's [deposit]
    and [withdraw] fail validation: each prints the one line
    ["Proxy: Invalid amount"], returns, and leaves the object behind
    [realAccount] as it was, whatever implementation it is; so none of its
    methods runs and a [RealBankAccount]'s balance is unchanged. *)
Theorem proxy_rejects_invalid_amount (amount : float) :
  leb amount 0 = true →
  (∀ (A : Type) (realAccount : IBankAccount.t A) (account : A),
     BankAccountProxy.validateTransaction amount account
     = (Return false, account, [Logged [Str "Proxy: Invalid amount"]])
     ∧ BankAccountProxy.deposit amount account
       = (Return VUndefined, account, [Logged [Str "Proxy: Invalid amount"]])
     ∧ BankAccountProxy.withdraw amount account
       = (Return VUndefined, account, [Logged [Str "Proxy: Invalid amount"]]))
  ∧ (∀ this : RealBankAccount.t,
       RealBankAccount.balance (final (BankAccountProxy.deposit amount this))
       = RealBankAccount.balance this
       ∧ RealBankAccount.balance (final (BankAccountProxy.withdraw amount this))
         = RealBankAccount.balance this).
Proof.
  intros Hle.
  assert (∀ (A : Type) (realAccount : IBankAccount.t A) (account : A),
     BankAccountProxy.validateTransaction amount account
     = (Return false, account, [Logged [Str "Proxy: Invalid amount"]])
     ∧ BankAccountProxy.deposit amount account
       = (Return VUndefined, account, [Logged [Str "Proxy: Invalid amount"]])
     ∧ BankAccountProxy.withdraw amount account
       = (Return VUndefined, account, [Logged [Str "Proxy: Invalid amount"]]))
    as Hgen.
  { intros A realAccount account.
    unfold BankAccountProxy.deposit, BankAccountProxy.withdraw,
      BankAccountProxy.validateTransaction.
    by rewrite Hle. }
  split; [exact Hgen|].
  intros this. destruct (Hgen _ _ this) as (_ & -> & ->). done.
Qed.

Lemma proxy_rejects_invalid_amount_witness :
  leb (-50) 0 = true
  ∧ RealBankAccount.balance
      (final (BankAccountProxy.deposit (-50) {| RealBankAccount.balance := 150 |}))
    = 150.
Proof.
  assert (leb (-50) 0 = true) as H by reflexivity.
  split; [exact H|].
  exact (proj1 (proj2 (proxy_rejects_invalid_amount (-50) H)
                  {| RealBankAccount.balance := 150 |})).
Defined.

End ProxyClaims.

(** ** Strategy *)

Section StrategyClaims.
Local Open Scope float_scope.

Lemma CashStrategy_pay_eq (amount : float) (this : CashStrategy.t) :
  CashStrategy.pay amount this
  = if gtb amount (CashStrategy.cashAmount this) then
      (Throw "Insufficient cash amount", this, [])
    else
      let remaining := CashStrategy.cashAmount this - amount in
      (Return VUndefined, {| CashStrategy.cashAmount := remaining |},
       [Logged [Str "Paid "; Num amount; Str " using Cash."; Str " ";
               Str "Cash amount remaining: "; Num remaining]]).
Proof.
  unfold CashStrategy.pay. run_M.
  by destruct (gtb amount (CashStrategy.cashAmount this)).
Qed.

(** The script's cash payment: 300 out of a reserve of 500 leaves 200. *)
Example cash_script :
  CashStrategy.pay 300 (CashStrategy.constructor 500)
  = (Return VUndefined, {| CashStrategy.cashAmount := 200 |},
     [Logged [Str "Paid "; Num 300; Str " using Cash."; Str " ";
             Str "Cash amount remaining: "; Num 200]]).
Proof. reflexivity. Qed.

(** The reserve is a double: of three payments of [0.1] out of [0.3]
    (the doubles nearest to them) the third is refused, because the
    reserve left by the first two is below [0.1]. *)
Example cash_rounds :
  let tenth := 0x1.999999999999ap-4 in
  let reserve := CashStrategy.constructor 0x1.3333333333333p-2 in
  let twice := final ((CashStrategy.pay tenth;; CashStrategy.pay tenth) reserve) in
  gtb tenth (CashStrategy.cashAmount twice) = true
  ∧ outcome (CashStrategy.pay tenth twice) = Throw "Insufficient cash amount".
Proof. by split. Qed.

(** C6 fails as stated: a payment does not always take exactly the amount
    off the reserve.  The reserve becomes the double nearest to the
    difference: paying [1] out of [9007199254740994] leaves
    [9007199254740992], two less. *)
Lemma pay_rounds_the_reserve :
  leb 1 9007199254740994 = true
  ∧ CashStrategy.pay 1 (CashStrategy.constructor 9007199254740994)
    = (Return VUndefined,
       {| CashStrategy.cashAmount := 9007199254740992 |},
       [Logged [Str "Paid "; Num 1; Str " using Cash."; Str " ";
               Str "Cash amount remaining: "; Num 9007199254740992]]).
Proof. by split. Qed.

(** C6, amended. [CashStrategy.pay(amount)] throws exactly when
    [amount > cashAmount]; the error is ["Insufficient cash amount"] and
    the strategy is left as it was, with nothing printed; when
    [amount <= cashAmount], and whenever it does not throw, it returns and
    [cashAmount] has become the double [cashAmount - amount], the
    difference rounded to the nearest double. *)
Theorem CashStrategy_pay_spec (amount : float) (this : CashStrategy.t) :
  let r := CashStrategy.pay amount this in
  (throws (outcome r) = true
   ↔ gtb amount (CashStrategy.cashAmount this) = true)
  ∧ (gtb amount (CashStrategy.cashAmount this) = true →
     r = (Throw "Insufficient cash amount", this, []))
  ∧ (leb amount (CashStrategy.cashAmount this) = true →
     outcome r = Return VUndefined
     ∧ CashStrategy.cashAmount (final r)
       = CashStrategy.cashAmount this - amount)
  ∧ (gtb amount (CashStrategy.cashAmount this) = false →
     outcome r = Return VUndefined
     ∧ CashStrategy.cashAmount (final r)
       = CashStrategy.cashAmount this - amount).
Proof.
  cbv zeta. rewrite CashStrategy_pay_eq.
  destruct this as [cash]. cbn [CashStrategy.cashAmount].
  destruct (gtb amount cash) eqn:E; cbn.
  - split_and!; try done.
    intros Hle. apply float_leb_not_ltb in Hle. unfold gtb in E. congruence.
  - by split_and!.
Qed.

Lemma CashStrategy_pay_spec_witness :
  gtb 600 500 = true
  ∧ CashStrategy.pay 600 (CashStrategy.constructor 500)
    = (Throw "Insufficient cash amount", CashStrategy.constructor 500, []).
Proof.
  assert (gtb 600 500 = true) as H by reflexivity.
  split; [exact H|].
  exact (proj1 (proj2 (CashStrategy_pay_spec 600 (CashStrategy.constructor 500))) H).
Defined.

End StrategyClaims.

(** ** Facade *)

Section FacadeClaims.

(** The script's purchase, in exact arithmetic. *)
Example facade_script :
  ∃ total, outcome (ShopFacade.calculate 150000 tt) = Return total
           ∧ (total == 155925)%Q.
Proof. eexists. split; [reflexivity | reflexivity]. Qed.

(** C10. For every price, [ShopFacade.calculate(price)] returns a number
    equal to [price * 0.9 * 1.05 * 1.1], that is [1.0395 * price]: the
    discounted price [price * 0.9], then the fee on it (times [1.05]),
    then shipping added, a tenth of the price after fees.  Numbers are
    rationals and equality is equality of rationals. *)
Theorem ShopFacade_calculate_spec (price : Q) :
  ∃ total,
    ShopFacade.calculate price tt
    = (Return total, tt,
       [Logged [Str "Discount: "; num (price * 0.9)];
        Logged [Str "Fees: "; num (price * 0.9 * 1.05)];
        Logged [Str "Shipping: "; num total]])
    ∧ total = (price * 0.9 * 1.05 + price * 0.9 * 1.05 * 0.1)%Q
    ∧ (total == price * 0.9 * 1.05 * 1.1)%Q
    ∧ (total == 1.0395 * price)%Q.
Proof.
  exists (price * 0.9 * 1.05 + price * 0.9 * 1.05 * 0.1)%Q.
  split_and!; [reflexivity | reflexivity | ring | ring].
Qed.

End FacadeClaims.

(** ** Simple factory *)

Section SimpleFactoryClaims.
Import SimpleFactory.

Example createAnimal_script :
  createAnimal "dog" = Return Dog
  ∧ createAnimal "cat" = Return Cat
  ∧ createAnimal "bird" = Throw "Animal type not supported"
  ∧ (createAnimal "dog" ≫= makeSound) = Return "Woof!"
  ∧ (createAnimal "cat" ≫= makeSound) = Return "Meow!".
Proof. by split_and!. Qed.

Lemma toLowerCase_dog (c1 c2 c3 : ascii) :
  (c1 = "d" ∨ c1 = "D")%char → (c2 = "o" ∨ c2 = "O")%char →
  (c3 = "g" ∨ c3 = "G")%char →
  toLowerCase (String c1 (String c2 (String c3 ""))) = "dog".
Proof. by intros [-> | ->] [-> | ->] [-> | ->]. Qed.

Lemma toLowerCase_cat (c1 c2 c3 : ascii) :
  (c1 = "c" ∨ c1 = "C")%char → (c2 = "a" ∨ c2 = "A")%char →
  (c3 = "t" ∨ c3 = "T")%char →
  toLowerCase (String c1 (String c2 (String c3 ""))) = "cat".
Proof. by intros [-> | ->] [-> | ->] [-> | ->]. Qed.

(** C4. [createAnimal(type)] throws ["Animal type not supported"] for every
    string whose lower-case form is neither ["dog"] nor ["cat"]; it
    returns a [Dog] when the lower-case form is ["dog"] and a [Cat] when it
    is ["cat"], which covers every spelling of the two words in upper and
    lower case letters; and it throws in no other case. *)
Theorem createAnimal_spec (type : string) :
  (toLowerCase type ≠ "dog" → toLowerCase type ≠ "cat" →
   createAnimal type = Throw "Animal type not supported")
  ∧ (toLowerCase type = "dog" → createAnimal type = Return Dog)
  ∧ (toLowerCase type = "cat" → createAnimal type = Return Cat)
  ∧ (∀ c1 c2 c3 : ascii,
       (c1 = "d" ∨ c1 = "D")%char → (c2 = "o" ∨ c2 = "O")%char →
       (c3 = "g" ∨ c3 = "G")%char →
       createAnimal (String c1 (String c2 (String c3 ""))) = Return Dog)
  ∧ (∀ c1 c2 c3 : ascii,
       (c1 = "c" ∨ c1 = "C")%char → (c2 = "a" ∨ c2 = "A")%char →
       (c3 = "t" ∨ c3 = "T")%char →
       createAnimal (String c1 (String c2 (String c3 ""))) = Return Cat)
  ∧ (throws (createAnimal type) = true ↔
     toLowerCase type ≠ "dog" ∧ toLowerCase type ≠ "cat").
Proof.
  unfold createAnimal.
  split_and!.
  - intros Hd Hc.
    apply String.eqb_neq in Hd, Hc. by rewrite Hd, Hc.
  - by intros ->.
  - by intros ->.
  - intros c1 c2 c3 H1 H2 H3. by rewrite toLowerCase_dog.
  - intros c1 c2 c3 H1 H2 H3. by rewrite toLowerCase_cat.
  - destruct (String.eqb_spec (toLowerCase type) "dog") as [-> | Hd]; cbn.
    { split; [done | by intros [? _]]. }
    destruct (String.eqb_spec (toLowerCase type) "cat") as [-> | Hc]; cbn.
    { split; [done | by intros [_ ?]]. }
    done.
Qed.

Lemma createAnimal_spec_witness :
  toLowerCase "bird" ≠ "dog" ∧ toLowerCase "bird" ≠ "cat"
  ∧ createAnimal "bird" = Throw "Animal type not supported"
  ∧ createAnimal "DoG" = Return Dog.
Proof.
  assert (toLowerCase "bird" ≠ "dog") as Hd by discriminate.
  assert (toLowerCase "bird" ≠ "cat") as Hc by discriminate.
  split_and!; [exact Hd | exact Hc | |].
  - exact (proj1 (createAnimal_spec "bird") Hd Hc).
  - apply (proj1 (proj2 (createAnimal_spec "DoG"))). reflexivity.
Defined.

End SimpleFactoryClaims.

(** ** Factory method *)

Section FactoryMethodClaims.
Import FactoryMethod.

(** C7. [new Vehicle()] and [new VehicleFactory()] throw
    ["Abstract class cannot be instantiated"]; [new Car()], [new Bike()],
    [new CarFactory()] and [new BikeFactory()] return the object; a
    [CarFactory] creates a vehicle whose [getType()] is ["Car"], a
    [BikeFactory] one whose [getType()] is ["Bike"]. *)
Theorem abstract_classes_not_instantiable :
  new_vehicle Vehicle = Throw "Abstract class cannot be instantiated"
  ∧ new_factory VehicleFactory = Throw "Abstract class cannot be instantiated"
  ∧ new_vehicle Car = Return Car ∧ new_vehicle Bike = Return Bike
  ∧ new_factory CarFactory = Return CarFactory
  ∧ new_factory BikeFactory = Return BikeFactory
  ∧ (carFactory ← new_factory CarFactory;
     car ← createVehicle carFactory;
     getType car) = Return "Car"
  ∧ (bikeFactory ← new_factory BikeFactory;
     bike ← createVehicle bikeFactory;
     getType bike) = Return "Bike".
Proof.
  by split_and!.
Qed.

End FactoryMethodClaims.

(** ** Observer *)

Section ObserverClaims.
Import Observer.

(** [indexOf] finds the first occurrence, and only misses what is absent. *)
Lemma indexOf_from_spec (x : loc) (array : list loc) (i : Z) :
((x ∉ array) ∧ indexOf_from x array i = (-1)%Z)
  ∨ (∃ n : nat, indexOf_from x array i = (i + Z.of_nat n)%Z
                ∧ array !! n = Some x
                ∧ (x ∉ take n array)).
Proof.
  revert i. induction array as [|y rest IH]; intros i; simpl.
  - left. split; [apply not_elem_of_nil | done].
  - destruct (decide (y = x)) as [-> | Hne].
    + right. exists 0%nat. split_and!; [lia | done | apply not_elem_of_nil].
    + destruct (IH (i + 1)%Z) as [[Hnot Heq] | (n & Heq & Hn & Hfirst)].
      * left. split; [|done]. rewrite not_elem_of_cons. by split.
      * right. exists (S n). split_and!; [lia | done |].
        simpl. rewrite not_elem_of_cons. by split.
Qed.

(** What [detach] leaves in the list: the list itself when the observer is
    absent, and otherwise the list without its first occurrence. *)
Lemma detach_observers (o : loc) (store : t) :
  outcome (detach o store) = Return tt
  ∧ heap (final (detach o store)) = heap store
  ∧ events (detach o store) = []
  ∧ (((o ∉ observers store)
      ∧ observers (final (detach o store)) = observers store)
     ∨ (∃ n : nat, observers store !! n = Some o
                   ∧ (o ∉ take n (observers store))
                   ∧ observers (final (detach o store))
                     = take n (observers store)
                       ++ drop (S n) (observers store))).
Proof.
  unfold detach, indexOf. run_M.
  destruct (indexOf_from_spec o (observers store) 0)
    as [[Hnot ->] | (n & -> & Hn & Hfirst)]; cbn.
  - split_and!; try done. by left.
  - assert ((0 + Z.of_nat n >? -1)%Z = true) as ->
      by (rewrite Z.gtb_ltb; apply Z.ltb_lt; lia).
    cbn. split_and!; try done. right. exists n.
    unfold splice1. replace (Z.to_nat (0 + Z.of_nat n)) with n by lia. done.
Qed.

(** An observer that is kept stays, one that was absent stays absent. *)
Lemma detach_keeps (o p : loc) (store : t) :
  p ≠ o → p ∈ observers store → p ∈ observers (final (detach o store)).
Proof.
  intros Hne Hp.
  destruct (detach_observers o store)
    as (_ & _ & _ & [[_ ->] | (n & Hn & _ & ->)]); [done|].
  rewrite <- (take_drop_middle _ _ _ Hn) in Hp.
  rewrite elem_of_app, elem_of_cons in Hp. rewrite elem_of_app.
  destruct Hp as [? | [? | ?]]; [by left | done | by right].
Qed.

Lemma detach_subset (o p : loc) (store : t) :
  p ∈ observers (final (detach o store)) → p ∈ observers store.
Proof.
  destruct (detach_observers o store)
    as (_ & _ & _ & [[_ ->] | (n & Hn & _ & ->)]); [done|].
  rewrite elem_of_app. intros [Hp | Hp].
  - by apply (subseteq_take n (observers store)).
  - by apply (subseteq_drop (S n) (observers store)).
Qed.

(** Detaching removes an observer that is in the list at most once. *)
Lemma detach_removes (o : loc) (store : t) :
  (count_occ Pos.eq_dec (observers store) o ≤ 1)%nat →
  o ∉ observers (final (detach o store)).
Proof.
  intros Hcount.
  destruct (detach_observers o store)
    as (_ & _ & _ & [[Hnot ->] | (n & Hn & Hfirst & ->)]); [done|].
  rewrite <- (take_drop_middle _ _ _ Hn) in Hcount.
  rewrite count_occ_app, count_occ_cons_eq in Hcount by done.
  rewrite elem_of_app. intros [Hin | Hin]; [done|].
  apply list_elem_of_In in Hin.
  apply (count_occ_In Pos.eq_dec) in Hin. lia.
Qed.

Lemma forEach_cons {S A} (callback : A → M S unit) (x : A) (rest : list A)
    (s : S) :
  forEach callback (x :: rest) s
  = match callback x s with
    | (Return _, s1, out1) =>
        match forEach callback rest s1 with
        | (r, s2, out2) => (r, s2, out1 ++ out2)
        end
    | (Throw e, s1, out1) => (Throw e, s1, out1)
    end.
Proof. reflexivity. Qed.

(** [update] leaves the store alone and invokes nobody but its receiver. *)
Lemma update_frame (p : loc) (data : value) (store : t) :
  final (update p data store) = store
  ∧ ∀ q d, Invoke q "update" d ∈ events (update p data store) → q = p.
Proof.
  unfold update. run_M.
  destruct (heap store !! p) as [[]|]; cbn; split; try done;
    intros q d Hin; inv_elem_of Hin.
Qed.

Lemma update_concrete (p : loc) (data : value) (store : t) :
  concrete store p →
  outcome (update p data store) = Return tt
  ∧ Invoke p "update" data ∈ events (update p data store).
Proof.
  intros (c & Hc & Hne). unfold update. run_M. rewrite Hc.
  destruct c; cbn; try done; split; try done; set_solver.
Qed.

Lemma notify_frame (data : value) (array : list loc) (store : t) :
  let r := forEach (fun observer => update observer data) array store in
  final r = store
  ∧ ∀ q d, Invoke q "update" d ∈ events r → q ∈ array.
Proof.
  induction array as [|p rest IH]; cbv zeta.
  - split; [done|]. cbn. intros q d Hin. by apply elem_of_nil in Hin.
  - rewrite forEach_cons.
    destruct (update_frame p data store) as [Hfinal Hev].
    destruct (update p data store) as [[[[]|e] s1] out1]; cbn in *; subst s1.
    + destruct IH as [IHfinal IHev].
      destruct (forEach _ rest store) as [[r s2] out2]; cbn in *.
      split; [done|]. intros q d Hin. apply elem_of_app in Hin.
      destruct Hin as [Hin | Hin].
      * rewrite (Hev q d Hin). apply elem_of_cons. by left.
      * apply elem_of_cons. right. by eapply IHev.
    + split; [done|]. intros q d Hin.
      rewrite (Hev q d Hin). apply elem_of_cons. by left.
Qed.

Lemma notify_reaches (data : value) (array : list loc) (store : t) :
  (∀ q, q ∈ array → concrete store q) →
  let r := forEach (fun observer => update observer data) array store in
  outcome r = Return tt
  ∧ ∀ p, p ∈ array → Invoke p "update" data ∈ events r.
Proof.
  induction array as [|p rest IH]; intros Hall; cbv zeta.
  - split; [done|]. intros p Hin. by apply elem_of_nil in Hin.
  - rewrite forEach_cons.
    destruct (update_frame p data store) as [Hfinal _].
    destruct (update_concrete p data store) as [Hret Hinv].
    { apply Hall, elem_of_cons. by left. }
    destruct (update p data store) as [[[[]|e] s1] out1]; cbn in *;
      [subst s1 | done].
    destruct IH as [IHret IHev].
    { intros q Hq. apply Hall, elem_of_cons. by right. }
    destruct (forEach _ rest store) as [[r s2] out2]; cbn in *.
    split; [done|]. intros q Hq. apply elem_of_app.
    apply elem_of_cons in Hq as [-> | Hq]; [by left | right; by apply IHev].
Qed.

(** A call other than [attach(o)] does not bring [o] into the list, and
    invokes [o] only if [o] is in the list. *)
Lemma exec_absent (o : loc) (c : call) (store : t) :
  c ≠ Attach o → o ∉ observers store →
  (o ∉ observers (final (exec c store)))
  ∧ ∀ d, Invoke o "update" d ∉ events (exec c store).
Proof.
  intros Hc Ho. destruct c as [p | p | data | new_price]; cbn.
  - unfold attach. run_M. split; [|set_solver].
    rewrite not_elem_of_app, not_elem_of_cons. split_and!; try done.
    + intros ->. by apply Hc.
    + apply not_elem_of_nil.
  - destruct (detach_observers p store) as (_ & _ & -> & _).
    split; [|set_solver]. intros Hin. by apply Ho, (detach_subset p).
  - unfold notify. run_M.
    destruct (notify_frame data (observers store) store) as [Hfinal Hev].
    destruct (forEach _ (observers store) store) as [[r s2] out2]; cbn in *.
    subst s2. split; [done|]. intros d Hin.
    by apply Ho, (Hev o d).
  - unfold setPrice, notify. run_M.
    set (store' := {| heap := heap store; observers := observers store;
                      price := new_price |}).
    destruct (notify_frame new_price (observers store) store')
      as [Hfinal Hev].
    destruct (forEach _ (observers store) store') as [[r s2] out2]; cbn in *.
    subst s2. split; [done|]. intros d Hin.
    by apply Ho, (Hev o d).
Qed.

Lemma run_absent (o : loc) (script : list call) (store : t) :
  Attach o ∉ script → o ∉ observers store →
  ∀ d, Invoke o "update" d ∉ events (run script store).
Proof.
  revert store. induction script as [|c rest IH]; intros store Hs Ho d.
  - cbn. apply not_elem_of_nil.
  - apply not_elem_of_cons in Hs as [Hc Hrest].
    unfold run in *. rewrite forEach_cons.
    destruct (exec_absent o c store) as [Ho' Hev]; [done | done |].
    specialize (IH (final (exec c store)) Hrest Ho' d).
    destruct (exec c store) as [[[[]|e] s1] out1]; cbn in *.
    + destruct (forEach exec rest s1) as [[r s2] out2]; cbn in *.
      rewrite not_elem_of_app. split; [apply Hev | done].
    + apply Hev.
Qed.

(** The script: three observers attached, a price change, the SMS
    observer detached, a second price change. *)
Example observer_script :
  let store := {| heap := {[1%positive := EmailObserver;
                            2%positive := SMSObserver;
                            3%positive := AppObserver]};
                  observers := []; price := VNumber 0 |} in
  events (run [Attach 1; Attach 2; Attach 3; SetPrice (VNumber 100);
               Detach 2; SetPrice (VNumber 200)]%positive store)
  = [Invoke 1 "update" (VNumber 100);
     Logged [Str "Email notification: Price updated to "; num 100];
     Invoke 2 "update" (VNumber 100);
     Logged [Str "SMS notification: Price updated to "; num 100];
     Invoke 3 "update" (VNumber 100);
     Logged [Str "App notification: Price updated to "; num 100];
     Invoke 1 "update" (VNumber 200);
     Logged [Str "Email notification: Price updated to "; num 200];
     Invoke 3 "update" (VNumber 200);
     Logged [Str "App notification: Price updated to "; num 200]]%positive.
Proof. reflexivity. Qed.

(** C3 fails as stated: an observer that was attached twice and detached
    once is still in the list, and the next [notify] invokes its
    [update]. *)
Lemma detach_leaves_second_attachment :
  let store := {| heap := {[1%positive := EmailObserver]};
                  observers := []; price := VNumber 0 |} in
  let attached := final (run [Attach 1; Attach 1]%positive store) in
  let detached := final (detach 1%positive attached) in
  observers attached = [1; 1]%positive
  ∧ observers detached = [1%positive]
  ∧ events (notify (VNumber 200) detached)
    = [Invoke 1%positive "update" (VNumber 200);
       Logged [Str "Email notification: Price updated to "; num 200]].
Proof. by split_and!. Qed.

(** C3, amended. Let an observer [o] be in the subject's list at most
    once, and let [detach(o)] be called.  Then [detach] returns, and in
    every later run of calls on the subject that does not attach [o] again
    no [notify] (nor [setPrice]) invokes [o.update].  Every other observer
    of the list is still in it, and a [notify(data)] invokes the [update]
    of each of them with [data] and returns, provided the observers left
    in the list are instances of the concrete observer classes. *)
Theorem detach_stops_notifications (store : t) (o : loc) :
  (count_occ Pos.eq_dec (observers store) o ≤ 1)%nat →
  let detached := final (detach o store) in
  outcome (detach o store) = Return tt
  ∧ (∀ script data,
       Attach o ∉ script →
       Invoke o "update" data ∉ events (run script detached))
  ∧ (∀ data, Invoke o "update" data ∉ events (notify data detached))
  ∧ (∀ p, p ∈ observers store → p ≠ o → p ∈ observers detached)
  ∧ (∀ data,
       (∀ q, q ∈ observers detached → concrete detached q) →
       outcome (notify data detached) = Return tt
       ∧ ∀ p, p ∈ observers store → p ≠ o →
              Invoke p "update" data ∈ events (notify data detached)).
Proof.
  intros Hcount detached.
  pose proof (detach_removes o store Hcount) as Hgone.
  fold detached in Hgone.
  assert (∀ script data,
            Attach o ∉ script →
            Invoke o "update" data ∉ events (run script detached)) as Hrun.
  { intros script data Hs. by apply run_absent. }
  split_and!.
  - by destruct (detach_observers o store) as (-> & _).
  - exact Hrun.
  - intros data. specialize (Hrun [Notify data] data).
    unfold run in Hrun. rewrite forEach_cons in Hrun. cbn in Hrun.
    destruct (notify data detached) as [[[[]|e] s1] out1]; cbn in *.
    + rewrite app_nil_r in Hrun. apply Hrun.
      rewrite not_elem_of_cons. split; [done | apply not_elem_of_nil].
    + apply Hrun.
      rewrite not_elem_of_cons. split; [done | apply not_elem_of_nil].
  - intros p Hp Hne. by apply detach_keeps.
  - intros data Hall.
    destruct (notify_reaches data (observers detached) detached Hall)
      as [Hret Hev].
    assert (notify data detached
            = forEach (fun observer => update observer data)
                (observers detached) detached) as Heq.
    { unfold notify. run_M.
      by destruct (forEach _ (observers detached) detached) as [[r s2] out2]. }
    rewrite Heq. split; [done|].
    intros p Hp Hne. apply Hev. by apply detach_keeps.
Qed.

Lemma detach_stops_notifications_witness :
  let store := {| heap := {[1%positive := EmailObserver;
                            2%positive := SMSObserver;
                            3%positive := AppObserver]};
                  observers := [1; 2; 3]%positive; price := VNumber 100 |} in
  (count_occ Pos.eq_dec (observers store) 2%positive ≤ 1)%nat
  ∧ ∀ data, Invoke 2%positive "update" data
            ∉ events (notify data (final (detach 2%positive store))).
Proof.
  intros store.
  assert (count_occ Pos.eq_dec (observers store) 2%positive ≤ 1)%nat as H
    by (vm_compute; lia).
  split; [exact H|].
  exact (proj1 (proj2 (proj2 (detach_stops_notifications store 2%positive H)))).
Defined.

End ObserverClaims.

(** ** Singleton *)

Section SingletonClaims.
Import Database.

Lemma single_initial : single initial.
Proof. reflexivity. Qed.

(** Once the instance exists, both ways of asking for a [Database] return
    it and change nothing. *)
Lemma obtains_existing (c : call) (static : state) (i : loc) :
  obtains c = true → instance static = Some i →
  exec c static = (Return (VRef i), static, []).
Proof.
  intros Hc Hi. destruct c; try done; cbn.
  - unfold getInstance. run_M. by repeat (rewrite Hi; cbn).
  - unfold constructor. run_M. by rewrite Hi.
Qed.

(** Before that, both create it. *)
Lemma obtains_first (c : call) (static : state) :
  obtains c = true → instance static = None → single static →
  ∃ i, outcome (exec c static) = Return (VRef i)
       ∧ instance (final (exec c static)) = Some i
       ∧ single (final (exec c static)).
Proof.
  intros Hc Hi Hs. unfold single in Hs. rewrite Hi in Hs.
  exists (fresh (dom (heap static))).
  destruct c; try done; cbn.
  - unfold getInstance, constructor. run_M. repeat (rewrite Hi; cbn).
    split_and!; try done. unfold single; cbn.
    rewrite dom_insert_L, Hs, dom_empty_L. set_solver.
  - unfold constructor. run_M. rewrite Hi. cbn.
    split_and!; try done. unfold single; cbn.
    rewrite dom_insert_L, Hs, dom_empty_L. set_solver.
Qed.

(** No call resets or replaces the instance. *)
Lemma exec_single (c : call) (static : state) :
  single static →
  single (final (exec c static))
  ∧ ∀ i, instance static = Some i → instance (final (exec c static)) = Some i.
Proof.
  intros Hs.
  destruct (obtains c) eqn:Hc.
  - destruct (instance static) as [i|] eqn:Hi.
    + rewrite (obtains_existing c static i Hc Hi). cbn.
      split; [done | intros j Hj; by rewrite Hi].
    + destruct (obtains_first c static Hc Hi Hs) as (i & _ & _ & Hs').
      split; [done | congruence].
  - destruct c as [| | this | this sql]; try done; cbn.
    + unfold connect. run_M.
      destruct (heap static !! this) as [object|] eqn:Hthis; cbn; [|done].
      destruct (connected object); cbn; [done|].
      split; [|done]. unfold single in *; cbn.
      destruct (instance static) as [i|].
      * rewrite dom_insert_L, Hs.
        assert (this ∈ dom (heap static)) as Hin by by apply elem_of_dom.
        rewrite Hs in Hin. apply elem_of_singleton in Hin as ->.
        by rewrite union_idemp_L.
      * rewrite Hs in Hthis. by rewrite lookup_empty in Hthis.
    + unfold query. run_M.
      destruct (heap static !! this) as [object|]; cbn; [|done].
      by destruct (connected object).
Qed.

Lemma after_single (script : list call) (static : state) :
  single static →
  single (after script static)
  ∧ ∀ i, instance static = Some i → instance (after script static) = Some i.
Proof.
  revert static. induction script as [|c rest IH]; intros static Hs; cbn.
  - done.
  - destruct (exec_single c static Hs) as [Hs' Hkeep].
    destruct (IH _ Hs') as [Hs'' Hkeep'].
    split; [done|]. intros i Hi. by apply Hkeep', Hkeep.
Qed.

(** The script: two [getInstance()] and a later [new Database()] give the
    same reference. *)
Example singleton_script :
  let r1 := getInstance initial in
  let r2 := getInstance (final r1) in
  let connected := after [Connect 1; Query 1 "SELECT * FROM users";
                          Connect 1; Query 1 "SELECT * FROM products"]%positive
                     (final r2) in
  let r3 := constructor connected in
  outcome r1 = Return (VRef 1) ∧ outcome r2 = Return (VRef 1)
  ∧ outcome r3 = Return (VRef 1).
Proof. by split_and!. Qed.

(** C9. Starting from the class as declared, take any two calls that hand
    out a [Database] ([Database.getInstance()] or [new Database()]), with
    any calls before and between them.  Both return, and they return the
    same reference; the second one changes nothing, so a [new Database()]
    made once an instance exists yields that instance and no new object;
    and the instance is the only [Database] object there is. *)
Theorem Database_single_instance (before between : list call) (c1 c2 : call) :
  obtains c1 = true → obtains c2 = true →
  let r1 := exec c1 (after before initial) in
  let static := after between (final r1) in
  let r2 := exec c2 static in
  ∃ i, outcome r1 = Return (VRef i)
       ∧ r2 = (Return (VRef i), static, [])
       ∧ instance static = Some i
       ∧ dom (heap static) = {[i]}.
Proof.
  intros H1 H2 r1 static r2.
  destruct (after_single before initial single_initial) as [Hs0 _].
  assert (∃ i, outcome r1 = Return (VRef i)
               ∧ instance (final r1) = Some i ∧ single (final r1))
    as (i & Hr1 & Hi1 & Hs1).
  { subst r1. destruct (instance (after before initial)) as [i|] eqn:Hi.
    - exists i. rewrite (obtains_existing c1 _ i H1 Hi). by cbn.
    - by apply obtains_first. }
  destruct (after_single between (final r1) Hs1) as [Hs Hkeep].
  specialize (Hkeep i Hi1). fold static in Hs, Hkeep.
  exists i. split_and!; try done.
  - subst r2. by apply obtains_existing.
  - unfold single in Hs. by rewrite Hkeep in Hs.
Qed.

Lemma Database_single_instance_witness :
  obtains GetInstance = true ∧ obtains New = true
  ∧ ∃ i, outcome (exec GetInstance (after [] initial)) = Return (VRef i)
         ∧ exec New (after [Connect 1%positive]
                       (final (exec GetInstance (after [] initial))))
           = (Return (VRef i),
              after [Connect 1%positive]
                (final (exec GetInstance (after [] initial))), [])
         ∧ instance (after [Connect 1%positive]
                       (final (exec GetInstance (after [] initial)))) = Some i
         ∧ dom (heap (after [Connect 1%positive]
                        (final (exec GetInstance (after [] initial))))) = {[i]}.
Proof.
  split; [reflexivity|]. split; [reflexivity|].
  exact (Database_single_instance [] [Connect 1%positive] GetInstance New
           eq_refl eq_refl).
Defined.

End SingletonClaims.

(** ** Proxy: the calls that pass validation, and what the proxy guarantees *)

Section ProxyFurther.
Local Open Scope float_scope.

Lemma RealBankAccount_deposit_eq (amount : float) (this : RealBankAccount.t) :
  RealBankAccount.deposit amount this
  = let balance := RealBankAccount.balance this + amount in
    (Return VUndefined, {| RealBankAccount.balance := balance |},
     [Logged [Str "Deposited "; Num amount; Str ". New balance: ";
              Num balance]]).
Proof. reflexivity. Qed.

Lemma proxy_deposit_eq (amount : float) (this : RealBankAccount.t) :
  BankAccountProxy.deposit amount this
  = if leb amount 0 then
      (Return VUndefined, this, [Logged [Str "Proxy: Invalid amount"]])
    else
      let balance := RealBankAccount.balance this + amount in
      (Return VUndefined, {| RealBankAccount.balance := balance |},
       [Logged [Str "Proxy: Logging deposit transaction"];
        Logged [Str "Deposited "; Num amount; Str ". New balance: ";
                Num balance]]).
Proof.
  unfold BankAccountProxy.deposit, BankAccountProxy.validateTransaction.
  by destruct (leb amount 0).
Qed.

Lemma proxy_withdraw_eq (amount : float) (this : RealBankAccount.t) :
  BankAccountProxy.withdraw amount this
  = if leb amount 0 then
      (Return VUndefined, this, [Logged [Str "Proxy: Invalid amount"]])
    else if gtb amount 1000 then
      (Return VUndefined, this,
       [Logged [Str "Proxy: Checking withdrawal limit"];
        Logged [Str "Proxy: Cannot withdraw more than 1000 at once"]])
    else if leb amount (RealBankAccount.balance this) then
      let balance := RealBankAccount.balance this - amount in
      (Return VUndefined, {| RealBankAccount.balance := balance |},
       [Logged [Str "Proxy: Checking withdrawal limit"];
        Logged [Str "Withdrawn "; Num amount; Str ". New balance: ";
                Num balance]])
    else
      (Return VUndefined, this,
       [Logged [Str "Proxy: Checking withdrawal limit"];
        Logged [Str "Proxy: Insufficient funds!"]]).
Proof.
  unfold BankAccountProxy.withdraw, BankAccountProxy.validateTransaction.
  destruct (leb amount 0) eqn:E0; [done|].
  destruct (gtb amount 1000) eqn:E1; [done|].
  unfold IBankAccount.withdraw, RealBankAccount.implements,
    RealBankAccount.withdraw.
  run_M.
  by destruct (leb amount (RealBankAccount.balance this)).
Qed.

(** X1. A deposit of a positive amount goes through the proxy to the real
    account: the balance becomes the double [balance + amount], after the
    proxy's log line and the account's own. *)
Theorem proxy_deposit_valid (amount : float) (this : RealBankAccount.t) :
  gtb amount 0 = true →
  BankAccountProxy.deposit amount this
  = (Return VUndefined,
     {| RealBankAccount.balance := RealBankAccount.balance this + amount |},
     [Logged [Str "Proxy: Logging deposit transaction"];
      Logged [Str "Deposited "; Num amount; Str ". New balance: ";
              Num (RealBankAccount.balance this + amount)]]).
Proof.
  intros Hpos. rewrite proxy_deposit_eq.
  by assert (leb amount 0 = false) as ->
    by by apply (float_above_zero 0 amount).
Qed.

Lemma proxy_deposit_valid_witness :
  gtb 50 0 = true
  ∧ BankAccountProxy.deposit 50 {| RealBankAccount.balance := 100 |}
    = (Return VUndefined, {| RealBankAccount.balance := 100 + 50 |},
       [Logged [Str "Proxy: Logging deposit transaction"];
        Logged [Str "Deposited "; Num 50; Str ". New balance: ";
                Num (100 + 50)]]).
Proof.
  assert (gtb 50 0 = true) as H by reflexivity.
  split; [exact H|].
  exact (proxy_deposit_valid 50 {| RealBankAccount.balance := 100 |} H).
Defined.

(** X2. A withdrawal of a positive amount of at most 1000 reaches the real
    account: when [amount <= balance] the balance becomes the double
    [balance - amount] and no refusal is printed; otherwise the account is
    unchanged and the proxy prints ["Proxy: Insufficient funds!"]. *)
Theorem proxy_withdraw_within_limit (amount : float) (this : RealBankAccount.t) :
  gtb amount 0 = true → leb amount 1000 = true →
  let r := BankAccountProxy.withdraw amount this in
  outcome r = Return VUndefined
  ∧ (leb amount (RealBankAccount.balance this) = true →
     RealBankAccount.balance (final r)
     = RealBankAccount.balance this - amount
     ∧ Logged [Str "Proxy: Insufficient funds!"] ∉ events r)
  ∧ (leb amount (RealBankAccount.balance this) = false →
     final r = this
     ∧ events r = [Logged [Str "Proxy: Checking withdrawal limit"];
                   Logged [Str "Proxy: Insufficient funds!"]]).
Proof.
  intros Hpos Hlim. cbv zeta. rewrite proxy_withdraw_eq.
  assert (leb amount 0 = false) as ->
    by by apply (float_above_zero 0 amount).
  assert (gtb amount 1000 = false) as -> by by apply float_leb_not_ltb.
  destruct (leb amount (RealBankAccount.balance this)) eqn:E; cbn.
  - split_and!; try done.
    intros _. split; [done|]. intros Hin. inv_elem_of Hin.
  - by split_and!.
Qed.

Lemma proxy_withdraw_within_limit_witness :
  gtb 100 0 = true ∧ leb 100 1000 = true ∧ leb 100 80 = false
  ∧ final (BankAccountProxy.withdraw 100 {| RealBankAccount.balance := 80 |})
    = {| RealBankAccount.balance := 80 |}.
Proof.
  assert (gtb 100 0 = true) as H0 by reflexivity.
  assert (leb 100 1000 = true) as H1 by reflexivity.
  assert (leb 100 (RealBankAccount.balance {| RealBankAccount.balance := 80 |})
          = false) as H2 by reflexivity.
  split_and!; [exact H0 | exact H1 | exact H2 |].
  exact (proj1 (proj2 (proj2 (proxy_withdraw_within_limit
                                100 {| RealBankAccount.balance := 80 |} H0 H1))
                  H2)).
Defined.

Lemma proxy_exec_not_negative (c : ProxyClient.call) (this : RealBankAccount.t) :
  (RealBankAccount.balance this <? 0) = false →
  (RealBankAccount.balance (final (ProxyClient.exec c this)) <? 0) = false.
Proof.
  intros Hnn. destruct c as [amount | amount]; cbn [ProxyClient.exec].
  - rewrite proxy_deposit_eq.
    destruct (leb amount 0) eqn:E0; cbn; [done|].
    apply float_add_not_negative; [done|].
    by apply float_not_leb_not_ltb.
  - rewrite proxy_withdraw_eq.
    destruct (leb amount 0) eqn:E0; cbn; [done|].
    destruct (gtb amount 1000) eqn:E1; cbn; [done|].
    destruct (leb amount (RealBankAccount.balance this)) eqn:E; cbn; [|done].
    apply float_sub_not_negative; [done|]. by apply float_leb_not_ltb.
Qed.

(** X4. Behind the proxy the balance never becomes negative: if the
    balance is not below zero, it is not below zero after any sequence of
    deposits and withdrawals made through the proxy, whatever the amounts
    are, infinities and [NaN] included (a deposit of [NaN] passes the
    validation and leaves the balance [NaN], which is not below zero
    either). *)
Theorem proxy_never_makes_balance_negative (script : list ProxyClient.call)
    (this : RealBankAccount.t) :
  (RealBankAccount.balance this <? 0) = false →
  (RealBankAccount.balance (ProxyClient.after script this) <? 0) = false.
Proof.
  revert this. induction script as [|c rest IH]; intros this Hnn; cbn.
  - done.
  - apply IH. by apply proxy_exec_not_negative.
Qed.

Lemma proxy_never_makes_balance_negative_witness :
  (100 <? 0) = false
  ∧ (RealBankAccount.balance
       (ProxyClient.after
          [ProxyClient.Deposit 50; ProxyClient.Deposit (-50);
           ProxyClient.Withdraw 70; ProxyClient.Withdraw 1500;
           ProxyClient.Deposit nan; ProxyClient.Withdraw 100]
          {| RealBankAccount.balance := 100 |}) <? 0) = false.
Proof.
  assert ((RealBankAccount.balance {| RealBankAccount.balance := 100 |} <? 0)
          = false) as H by reflexivity.
  split; [exact H|].
  exact (proxy_never_makes_balance_negative
           [ProxyClient.Deposit 50; ProxyClient.Deposit (-50);
            ProxyClient.Withdraw 70; ProxyClient.Withdraw 1500;
            ProxyClient.Deposit nan; ProxyClient.Withdraw 100]
           {| RealBankAccount.balance := 100 |} H).
Defined.

(** X5. Without the proxy nothing validates a deposit: depositing a
    negative amount larger than the balance leaves the plain [BankAccount]
    with a negative balance, without any error. *)
Theorem BankAccount_deposit_unvalidated (amount : float) (this : BankAccount.t) :
  (amount <? - BankAccount.balance this) = true →
  outcome (BankAccount.deposit amount this) = Return VUndefined
  ∧ (BankAccount.balance (final (BankAccount.deposit amount this)) <? 0) = true.
Proof.
  intros Hlt. split; [done|].
  unfold BankAccount.deposit. run_M. by apply float_add_negative.
Qed.

Lemma BankAccount_deposit_unvalidated_witness :
  (-200 <? - 100) = true
  ∧ (BankAccount.balance
       (final (BankAccount.deposit (-200) {| BankAccount.balance := 100 |}))
     <? 0) = true.
Proof.
  assert ((-200 <? - BankAccount.balance {| BankAccount.balance := 100 |})
          = true) as H by reflexivity.
  split; [exact H|].
  exact (proj2 (BankAccount_deposit_unvalidated
                  (-200) {| BankAccount.balance := 100 |} H)).
Defined.

(** X6. The plain [BankAccount] does not overdraw: [withdraw] changes the
    balance only when [amount <= balance], to the double
    [balance - amount], and otherwise prints ["Insufficient funds!"] and
    leaves the balance; a balance that is not negative never becomes
    negative. *)
Theorem BankAccount_withdraw_never_overdraws (amount : float) (this : BankAccount.t) :
  let r := BankAccount.withdraw amount this in
  outcome r = Return VUndefined
  ∧ (leb amount (BankAccount.balance this) = true →
     BankAccount.balance (final r) = BankAccount.balance this - amount)
  ∧ (leb amount (BankAccount.balance this) = false →
     final r = this ∧ events r = [Logged [Str "Insufficient funds!"]])
  ∧ (leb 0 (BankAccount.balance this) = true →
     (BankAccount.balance (final r) <? 0) = false).
Proof.
  cbv zeta. unfold BankAccount.withdraw. run_M.
  destruct (leb amount (BankAccount.balance this)) eqn:E; cbn.
  - split_and!; try done. intros Hnn.
    apply float_sub_not_negative; by apply float_leb_not_ltb.
  - split_and!; try done. intros Hnn. by apply float_leb_not_ltb.
Qed.

Lemma BankAccount_withdraw_never_overdraws_witness :
  leb 100 80 = false
  ∧ final (BankAccount.withdraw 100 {| BankAccount.balance := 80 |})
    = {| BankAccount.balance := 80 |}.
Proof.
  assert (leb 100 (BankAccount.balance {| BankAccount.balance := 80 |}) = false)
    as H by reflexivity.
  split; [exact H|].
  exact (proj1 (proj1 (proj2 (proj2 (BankAccount_withdraw_never_overdraws
                                       100 {| BankAccount.balance := 80 |})))
                  H)).
Defined.

(** X8. A proxy around an object that only has the interface's empty
    methods reports every withdrawal that passes its own checks as
    ["Proxy: Insufficient funds!"]: the empty [withdraw] returns
    [undefined], which the proxy reads as a refusal. *)
Theorem proxy_over_empty_interface (A : Type) (amount : float) (account : A) :
  gtb amount 0 = true → leb amount 1000 = true →
  @BankAccountProxy.withdraw A (IBankAccount.base A) amount account
  = (Return VUndefined, account,
     [Logged [Str "Proxy: Checking withdrawal limit"];
      Logged [Str "Proxy: Insufficient funds!"]]).
Proof.
  intros Hpos Hlim.
  unfold BankAccountProxy.withdraw, BankAccountProxy.validateTransaction.
  assert (leb amount 0 = false) as ->
    by by apply (float_above_zero 0 amount).
  unfold mbind, M_bind, bind, mret, M_ret, ret, console_log, emit. cbn.
  by assert (gtb amount 1000 = false) as -> by by apply float_leb_not_ltb.
Qed.

Lemma proxy_over_empty_interface_witness :
  gtb 70 0 = true ∧ leb 70 1000 = true
  ∧ @BankAccountProxy.withdraw unit (IBankAccount.base unit) 70 tt
    = (Return VUndefined, tt,
       [Logged [Str "Proxy: Checking withdrawal limit"];
        Logged [Str "Proxy: Insufficient funds!"]]).
Proof.
  assert (gtb 70 0 = true) as H0 by reflexivity.
  assert (leb 70 1000 = true) as H1 by reflexivity.
  split_and!; [exact H0 | exact H1 |].
  exact (proxy_over_empty_interface unit 70 tt H0 H1).
Defined.

End ProxyFurther.

(** ** Observer: the list of observers and the order of notification *)

Section ObserverFurther.
Import Observer.

Lemma notify_eq (data : value) (store : t) :
  notify data store
  = forEach (fun observer => update observer data) (observers store) store.
Proof.
  unfold notify. run_M.
  by destruct (forEach _ (observers store) store) as [[r s2] out2].
Qed.

Lemma update_concrete_eq (p : loc) (data : value) (store : t) :
  concrete store p →
  ∃ line, update p data store
          = (Return tt, store, [Invoke p "update" data; Logged line]).
Proof.
  intros (c & Hc & Hne). unfold update. run_M. rewrite Hc.
  destruct c; [done | | |]; by eexists.
Qed.

Lemma detach_price (o : loc) (store : t) :
  price (final (detach o store)) = price store.
Proof.
  unfold detach. run_M.
  by destruct (indexOf o (observers store) >? -1)%Z.
Qed.

Lemma update_abstract_eq (a : loc) (data : value) (store : t) :
  heap store !! a = Some Observer →
  update a data store
  = (Throw "update() method must be implemented", store,
     [Invoke a "update" data]).
Proof. intros Ha. unfold update. run_M. by rewrite Ha. Qed.

(** X9. Detaching an observer that is not in the list does nothing: no
    error, no output, and the store is as it was. *)
Theorem detach_absent_noop (o : loc) (store : t) :
  o ∉ observers store → detach o store = (Return tt, store, []).
Proof.
  intros Habsent. unfold detach, indexOf. run_M.
  destruct (indexOf_from_spec o (observers store) 0)
    as [[_ ->] | (n & _ & Hn & _)]; [done|].
  exfalso. apply Habsent. by eapply list_elem_of_lookup_2.
Qed.

Lemma detach_absent_noop_witness :
  let store := {| heap := {[1%positive := EmailObserver]};
                  observers := [1%positive]; price := VNumber 0 |} in
(2%positive ∉ observers store)
  ∧ detach 2%positive store = (Return tt, store, []).
Proof.
  intros store.
  assert (2%positive ∉ observers store) as H.
  { intros Hin. inv_elem_of Hin. }
  split; [exact H|].
  exact (detach_absent_noop 2%positive store H).
Defined.

(** X10. Attaching an observer that is not in the list and detaching it
    again gives back the store as it was, with the other observers in
    their order. *)
Theorem attach_then_detach_restores (o : loc) (store : t) :
  o ∉ observers store →
  final (detach o (final (attach o store))) = store.
Proof.
  intros Habsent.
  set (attached := final (attach o store)).
  assert (observers attached = observers store ++ [o]
          ∧ heap attached = heap store ∧ price attached = price store)
    as (Hobs & Hheap & Hprice) by done.
  destruct (detach_observers o attached)
    as (_ & Hh & _ & [[Hnot _] | (n & Hn & Hfirst & Hres)]).
  { exfalso. apply Hnot. rewrite Hobs. apply elem_of_app. right.
    apply elem_of_cons. by left. }
  pose proof (detach_price o attached) as Hp.
  rewrite Hobs in Hn, Hfirst, Hres.
  assert (n = length (observers store)) as ->.
  { destruct (decide (n < length (observers store))%nat) as [Hlt | Hge].
    - rewrite lookup_app_l in Hn by done.
      exfalso. apply Habsent. by eapply list_elem_of_lookup_2.
    - apply lookup_lt_Some in Hn. rewrite length_app in Hn. cbn in Hn. lia. }
  rewrite take_app_length in Hres.
  rewrite drop_ge in Hres by (rewrite length_app; cbn; lia).
  rewrite app_nil_r in Hres.
  destruct (final (detach o attached)) as [h' l' p'], store as [h l p].
  cbn in *. congruence.
Qed.

Lemma attach_then_detach_restores_witness :
  let store := {| heap := {[1%positive := EmailObserver;
                            2%positive := SMSObserver]};
                  observers := [1%positive]; price := VNumber 0 |} in
(2%positive ∉ observers store)
  ∧ final (detach 2%positive (final (attach 2%positive store))) = store.
Proof.
  intros store.
  assert (2%positive ∉ observers store) as H.
  { intros Hin. inv_elem_of Hin. }
  split; [exact H|].
  exact (attach_then_detach_restores 2%positive store H).
Defined.

(** X11. [detach(o)] removes one occurrence of [o] and nothing else: the
    number of times [o] is in the list drops by one (or stays zero), and
    for every other observer it is unchanged. *)
Theorem detach_removes_one_occurrence (o p : loc) (store : t) :
  count_occ Pos.eq_dec (observers (final (detach o store))) p
  = if decide (p = o)
    then Nat.pred (count_occ Pos.eq_dec (observers store) o)
    else count_occ Pos.eq_dec (observers store) p.
Proof.
  destruct (detach_observers o store)
    as (_ & _ & _ & [[Hnot ->] | (n & Hn & _ & ->)]).
  - destruct (decide (p = o)) as [-> | _]; [|done].
    assert (count_occ Pos.eq_dec (observers store) o = 0%nat) as ->; [|done].
    apply count_occ_not_In. by rewrite <- list_elem_of_In.
  - pose proof (take_drop_middle _ _ _ Hn) as Hsplit.
    assert (∀ q, count_occ Pos.eq_dec (observers store) q
                 = (count_occ Pos.eq_dec (take n (observers store)) q
                    + count_occ Pos.eq_dec
                        (o :: drop (S n) (observers store)) q)%nat) as Hc.
    { intros q. rewrite <- Hsplit at 1. apply count_occ_app. }
    rewrite count_occ_app, !Hc.
    destruct (decide (p = o)) as [-> | Hne].
    + rewrite count_occ_cons_eq by done. lia.
    + rewrite count_occ_cons_neq by done. lia.
Qed.

Lemma notify_list_concrete (data : value) (array : list loc) (store : t) :
  (∀ q, q ∈ array → concrete store q) →
  let r := forEach (fun observer => update observer data) array store in
  outcome r = Return tt ∧ final r = store
  ∧ invocations (events r) = map (fun p => Invoke p "update" data) array
  ∧ length (console (events r)) = length array.
Proof.
  induction array as [|p rest IH]; intros Hall; cbv zeta.
  - done.
  - rewrite forEach_cons.
    destruct (update_concrete_eq p data store) as [line ->].
    { apply Hall, elem_of_cons. by left. }
    destruct IH as (IHret & IHfinal & IHinv & IHlen).
    { intros q Hq. apply Hall, elem_of_cons. by right. }
    destruct (forEach _ rest store) as [[r s2] out2]; cbn in *.
    split_and!; try done; congruence.
Qed.

(** X12. When every observer in the list is of a concrete class,
    [notify(data)] returns, leaves the store as it was, and invokes
    [update(data)] on the observers in the order of the list, once for
    each place an observer has in it (so twice for an observer attached
    twice); each invocation prints one line. *)
Theorem notify_invokes_in_order (data : value) (store : t) :
  (∀ q, q ∈ observers store → concrete store q) →
  let r := notify data store in
  outcome r = Return tt ∧ final r = store
  ∧ invocations (events r)
    = map (fun p => Invoke p "update" data) (observers store)
  ∧ length (console (events r)) = length (observers store).
Proof.
  intros Hall. cbv zeta. rewrite notify_eq.
  by apply notify_list_concrete.
Qed.

Lemma notify_invokes_in_order_witness :
  let store := {| heap := {[1%positive := EmailObserver;
                            2%positive := SMSObserver]};
                  observers := [2; 1; 2]%positive; price := VNumber 0 |} in
  (∀ q, q ∈ observers store → concrete store q)
  ∧ invocations (events (notify (VNumber 5) store))
    = map (fun p => Invoke p "update" (VNumber 5)) (observers store).
Proof.
  intros store.
  assert (∀ q, q ∈ observers store → concrete store q) as H.
  { intros q Hq. unfold concrete.
    apply elem_of_cons in Hq as [-> | Hq]; [by eexists|].
    apply elem_of_cons in Hq as [-> | Hq]; [by eexists|].
    apply elem_of_cons in Hq as [-> | Hq]; [by eexists|].
    by apply elem_of_nil in Hq. }
  split; [exact H|].
  exact (proj1 (proj2 (proj2 (notify_invokes_in_order (VNumber 5) store H)))).
Defined.

(** X13. An observer of the abstract class [Observer] ends the
    notification: [notify] throws ["update() method must be implemented"]
    when it reaches it, the observers before it have been notified in
    order, and the ones after it are not invoked. *)
Theorem notify_stops_at_abstract_observer (data : value) (store : t)
    (before rest : list loc) (a : loc) :
  observers store = before ++ a :: rest →
  (∀ q, q ∈ before → concrete store q) →
  heap store !! a = Some Observer →
  let r := notify data store in
  outcome r = Throw "update() method must be implemented"
  ∧ final r = store
  ∧ invocations (events r)
    = map (fun p => Invoke p "update" data) (before ++ [a]).
Proof.
  intros Hobs Hbefore Ha. cbv zeta. rewrite notify_eq, Hobs. clear Hobs.
  induction before as [|p before IH].
  - cbn [app]. rewrite forEach_cons.
    by rewrite (update_abstract_eq a data store Ha).
  - cbn [app]. rewrite forEach_cons.
    destruct (update_concrete_eq p data store) as [line ->].
    { apply Hbefore, elem_of_cons. by left. }
    destruct IH as (IHret & IHfinal & IHinv).
    { intros q Hq. apply Hbefore, elem_of_cons. by right. }
    destruct (forEach _ (before ++ a :: rest) store) as [[r s2] out2].
    cbn in *. split_and!; try done. congruence.
Qed.

Lemma notify_stops_at_abstract_observer_witness :
  let store := {| heap := {[1%positive := EmailObserver;
                            2%positive := Observer;
                            3%positive := AppObserver]};
                  observers := [1; 2; 3]%positive; price := VNumber 0 |} in
  invocations (events (notify (VNumber 5) store))
  = [Invoke 1%positive "update" (VNumber 5);
     Invoke 2%positive "update" (VNumber 5)].
Proof.
  intros store.
  assert (∀ q, q ∈ [1%positive] → concrete store q) as H.
  { intros q Hq. apply elem_of_cons in Hq as [-> | Hq]; [by eexists|].
    by apply elem_of_nil in Hq. }
  exact (proj2 (proj2 (notify_stops_at_abstract_observer
                         (VNumber 5) store [1%positive] [3%positive]
                         2%positive eq_refl H eq_refl))).
Defined.

(** X14. With an email, an SMS and an app observer attached in that order,
    [setPrice] on the store with observers prints exactly the lines that
    [setPrice] prints on the store without the pattern, and both record
    the new price. *)
Theorem setPrice_prints_as_without_pattern (new_price : value) (store : t)
    (plain : Store.t) (email sms app : loc) :
  heap store !! email = Some EmailObserver →
  heap store !! sms = Some SMSObserver →
  heap store !! app = Some AppObserver →
  observers store = [email; sms; app] →
  console (events (setPrice new_price store))
  = events (Store.setPrice new_price plain)
  ∧ outcome (setPrice new_price store) = Return tt
  ∧ price (final (setPrice new_price store)) = new_price
  ∧ Store.price (final (Store.setPrice new_price plain)) = new_price.
Proof.
  intros He Hs Ha Hobs.
  unfold setPrice, notify, Store.setPrice. run_M. rewrite Hobs.
  unfold forEach, update. run_M. rewrite He. cbn. rewrite Hs. cbn.
  rewrite Ha. by cbn.
Qed.

Lemma setPrice_prints_as_without_pattern_witness :
  let store := {| heap := {[1%positive := EmailObserver;
                            2%positive := SMSObserver;
                            3%positive := AppObserver]};
                  observers := [1; 2; 3]%positive; price := VNumber 0 |} in
  console (events (setPrice (VNumber 100) store))
  = events (Store.setPrice (VNumber 100) Store.constructor).
Proof.
  intros store.
  exact (proj1 (setPrice_prints_as_without_pattern
                  (VNumber 100) store Store.constructor 1 2 3
                  eq_refl eq_refl eq_refl eq_refl)).
Defined.

End ObserverFurther.

(** ** Strategy: the cart, its strategies and the function they replace *)

Section StrategyFurther.
Import ShoppingCart.
Local Open Scope float_scope.

(** The script: a credit card, a PayPal and a cash payment, then the
    credit card again; the cash strategy is left with 200. *)
Example cart_script :
  let w := {| cart := constructor 1;
              heap := {[1%positive := PaymentStrategy.CreditCard
                          (CreditCardStrategy.constructor
                             (VString "1234-5678") (VString "123")
                             (VString "12/25"));
                        2%positive := PaymentStrategy.PayPal
                          (PayPalStrategy.constructor
                             (VString "example@email.com")
                             (VString "password"));
                        3%positive := PaymentStrategy.Cash
                          (CashStrategy.constructor 500)]} |} in
  let w' := after [SetAmount 100; Checkout;
                   SetPaymentStrategy 2; SetAmount 200; Checkout;
                   SetPaymentStrategy 3; SetAmount 300; Checkout;
                   SetPaymentStrategy 1; SetAmount 400; Checkout] w in
  heap w' !! 3%positive
  = Some (PaymentStrategy.Cash {| CashStrategy.cashAmount := 200 |})
  ∧ cart w' = {| paymentStrategy := 1; amount := 400 |}.
Proof. by split. Qed.

(** X15. [processPayment] throws ["Unsupported payment type"], printing
    nothing, exactly for the payment types other than ["credit_card"] and
    ["paypal"]; the comparison is exact, so another spelling of the two
    is unsupported as well. *)
Theorem processPayment_unsupported (paymentType : string) (amount : float)
    (details : gmap string value) :
  let r := processPayment paymentType amount details tt in
  (paymentType ≠ "credit_card" → paymentType ≠ "paypal" →
   r = (Throw "Unsupported payment type", tt, []))
  ∧ (throws (outcome r) = true ↔
     paymentType ≠ "credit_card" ∧ paymentType ≠ "paypal")
  ∧ processPayment "PayPal" amount details tt
    = (Throw "Unsupported payment type", tt, []).
Proof.
  cbv zeta. unfold processPayment. split_and!; [| |done].
  - intros Hc Hp. apply String.eqb_neq in Hc, Hp. by rewrite Hc, Hp.
  - destruct (String.eqb_spec paymentType "credit_card") as [-> | Hc].
    { split; [done | by intros [? _]]. }
    destruct (String.eqb_spec paymentType "paypal") as [-> | Hp].
    { split; [done | by intros [_ ?]]. }
    done.
Qed.

Lemma processPayment_unsupported_witness :
  "cash" ≠ "credit_card" ∧ "cash" ≠ "paypal"
  ∧ processPayment "cash" 300 ∅ tt = (Throw "Unsupported payment type", tt, []).
Proof.
  assert ("cash" ≠ "credit_card") as Hc by discriminate.
  assert ("cash" ≠ "paypal") as Hp by discriminate.
  split_and!; [exact Hc | exact Hp |].
  exact (proj1 (processPayment_unsupported "cash" 300 ∅) Hc Hp).
Defined.

Lemma checkout_eq (w : world) (strategy : PaymentStrategy.t) :
  heap w !! paymentStrategy (cart w) = Some strategy →
  checkout w
  = match PaymentStrategy.pay (amount (cart w)) strategy with
    | (r, strategy', out) =>
        (r ;; mret VUndefined,
         {| cart := cart w;
            heap := <[paymentStrategy (cart w) := strategy']> (heap w) |},
         out)
    end.
Proof. intros Hl. unfold checkout. by rewrite Hl. Qed.

Lemma pay_Cash_eq (amount : float) (s : CashStrategy.t) :
  PaymentStrategy.pay amount (PaymentStrategy.Cash s)
  = if gtb amount (CashStrategy.cashAmount s) then
      (Throw "Insufficient cash amount", PaymentStrategy.Cash s, [])
    else
      let remaining := CashStrategy.cashAmount s - amount in
      (Return VUndefined,
       PaymentStrategy.Cash {| CashStrategy.cashAmount := remaining |},
       [Logged [Str "Paid "; Num amount; Str " using Cash."; Str " ";
                Str "Cash amount remaining: "; Num remaining]]).
Proof.
  unfold PaymentStrategy.pay, PaymentStrategy.on.
  rewrite CashStrategy_pay_eq.
  by destruct (gtb amount (CashStrategy.cashAmount s)).
Qed.

Lemma pay_CreditCard_eq (amount : float) (card : CreditCardStrategy.t) :
  PaymentStrategy.pay amount (PaymentStrategy.CreditCard card)
  = (Return VUndefined, PaymentStrategy.CreditCard card,
     [Logged [Str "Paid "; Num amount; Str " using Credit Card: ";
              Val (CreditCardStrategy.cardNumber card)]]).
Proof. reflexivity. Qed.

Lemma pay_PayPal_eq (amount : float) (account : PayPalStrategy.t) :
  PaymentStrategy.pay amount (PaymentStrategy.PayPal account)
  = (Return VUndefined, PaymentStrategy.PayPal account,
     [Logged [Str "Paid "; Num amount; Str " using PayPal: ";
              Val (PayPalStrategy.email account)]]).
Proof. reflexivity. Qed.

Lemma checkout_unchanged (w : world) (strategy : PaymentStrategy.t) :
  heap w !! paymentStrategy (cart w) = Some strategy →
  {| cart := cart w;
     heap := <[paymentStrategy (cart w) := strategy]> (heap w) |} = w.
Proof. intros Hl. rewrite insert_id by done. by destruct w. Qed.

(** X16. With a credit card strategy, [checkout] prints the very line
    [processPayment("credit_card", ...)] prints for the same amount and
    card number.  With a PayPal strategy it does not: the strategy prints
    ["using PayPal: "] where the function printed
    ["using PayPal account: "]. *)
Theorem checkout_against_processPayment (w : world) :
  (∀ card details,
     heap w !! paymentStrategy (cart w) = Some (PaymentStrategy.CreditCard card) →
     details !! "cardNumber" = Some (CreditCardStrategy.cardNumber card) →
     checkout w
     = (Return VUndefined, w,
        events (processPayment "credit_card" (amount (cart w)) details tt)))
  ∧ (∀ account details,
       heap w !! paymentStrategy (cart w) = Some (PaymentStrategy.PayPal account) →
       outcome (checkout w) = Return VUndefined
       ∧ events (checkout w)
         = [Logged [Str "Paid "; Num (amount (cart w)); Str " using PayPal: ";
                    Val (PayPalStrategy.email account)]]
       ∧ events (checkout w)
         ≠ events (processPayment "paypal" (amount (cart w)) details tt)).
Proof.
  split.
  - intros card details Hl Hcard.
    rewrite (checkout_eq w _ Hl), pay_CreditCard_eq.
    rewrite (checkout_unchanged w _ Hl).
    unfold processPayment. cbn. by rewrite Hcard.
  - intros account details Hl.
    rewrite (checkout_eq w _ Hl), pay_PayPal_eq.
    rewrite (checkout_unchanged w _ Hl).
    by split_and!.
Qed.

Lemma checkout_against_processPayment_witness :
  let w := {| cart := {| paymentStrategy := 1; amount := 100 |};
              heap := {[1%positive := PaymentStrategy.CreditCard
                          (CreditCardStrategy.constructor
                             (VString "1234-5678") (VString "123")
                             (VString "12/25"))]} |} in
  let details : gmap string value :=
    {["cardNumber" := VString "1234-5678"; "cvv" := VString "123";
      "expiryDate" := VString "12/25"]} in
  checkout w
  = (Return VUndefined, w,
     events (processPayment "credit_card" 100 details tt)).
Proof.
  intros w details.
  exact (proj1 (checkout_against_processPayment w) _ details eq_refl eq_refl).
Defined.

(** X17. [checkout] throws only for want of cash: with a credit card or a
    PayPal strategy it always returns, and with a cash strategy it throws
    exactly when the cart's amount exceeds the reserve, in which case the
    reserve is untouched. *)
Theorem checkout_throws_only_for_cash (w : world) :
  (∀ s, heap w !! paymentStrategy (cart w) = Some (PaymentStrategy.Cash s) →
        (throws (outcome (checkout w)) = true
         ↔ gtb (amount (cart w)) (CashStrategy.cashAmount s) = true)
        ∧ (gtb (amount (cart w)) (CashStrategy.cashAmount s) = true →
           checkout w = (Throw "Insufficient cash amount", w, [])))
  ∧ (∀ card,
       heap w !! paymentStrategy (cart w) = Some (PaymentStrategy.CreditCard card) →
       outcome (checkout w) = Return VUndefined)
  ∧ (∀ account,
       heap w !! paymentStrategy (cart w) = Some (PaymentStrategy.PayPal account) →
       outcome (checkout w) = Return VUndefined).
Proof.
  split_and!.
  - intros s Hl. rewrite (checkout_eq w _ Hl), pay_Cash_eq.
    destruct (gtb (amount (cart w)) (CashStrategy.cashAmount s)) eqn:E; cbn.
    + split; [done|]. intros _.
      by rewrite (checkout_unchanged w _ Hl).
    + by split.
  - intros card Hl. by rewrite (checkout_eq w _ Hl).
  - intros account Hl. by rewrite (checkout_eq w _ Hl).
Qed.

Lemma checkout_throws_only_for_cash_witness :
  let w := {| cart := {| paymentStrategy := 3; amount := 600 |};
              heap := {[3%positive := PaymentStrategy.Cash
                          (CashStrategy.constructor 500)]} |} in
  gtb 600 500 = true
  ∧ checkout w = (Throw "Insufficient cash amount", w, []).
Proof.
  intros w.
  assert (gtb (amount (cart w))
            (CashStrategy.cashAmount (CashStrategy.constructor 500)) = true)
    as H by reflexivity.
  split; [exact H|].
  exact (proj2 (proj1 (checkout_throws_only_for_cash w)
                  (CashStrategy.constructor 500) eq_refl) H).
Defined.

(** X18. [checkout] leaves the cart as it is (the amount is not reset, so
    a second [checkout] asks for the same amount again) and changes no
    strategy other than the one the cart points to; no strategy is created
    or lost. *)
Theorem checkout_frame (w : world) :
  cart (final (checkout w)) = cart w
  ∧ (∀ l, l ≠ paymentStrategy (cart w) →
          heap (final (checkout w)) !! l = heap w !! l)
  ∧ dom (heap (final (checkout w))) = dom (heap w).
Proof.
  unfold checkout.
  destruct (heap w !! paymentStrategy (cart w)) as [strategy|] eqn:Hl;
    [|done].
  destruct (PaymentStrategy.pay (amount (cart w)) strategy)
    as [[r strategy'] out]; cbn.
  split_and!; [done | |].
  - intros l Hne. by rewrite lookup_insert_ne.
  - rewrite dom_insert_L.
    assert (paymentStrategy (cart w) ∈ dom (heap w)) as Hin
      by by apply elem_of_dom.
    apply (anti_symm (⊆)).
    + apply union_least; [by apply singleton_subseteq_l | done].
    + apply union_subseteq_r.
Qed.

Lemma checkout_frame_witness :
  let w := {| cart := {| paymentStrategy := 3; amount := 300 |};
              heap := {[1%positive := PaymentStrategy.Base;
                        3%positive := PaymentStrategy.Cash
                          (CashStrategy.constructor 500)]} |} in
  1%positive ≠ paymentStrategy (cart w)
  ∧ heap (final (checkout w)) !! 1%positive = heap w !! 1%positive.
Proof.
  intros w.
  assert (1%positive ≠ paymentStrategy (cart w)) as H by discriminate.
  split; [exact H|].
  exact (proj1 (proj2 (checkout_frame w)) 1%positive H).
Defined.

Lemma exec_solvent (c : call) (w : world) :
  solvent w → solvent (final (exec c w)).
Proof.
  intros Hw. destruct c as [l | a |]; cbn [exec]; [done | done |].
  unfold checkout.
  destruct (heap w !! paymentStrategy (cart w)) as [strategy|] eqn:Hl;
    [|done].
  destruct strategy as [| card | account | s].
  - cbn [PaymentStrategy.pay final fst snd].
    by rewrite (checkout_unchanged w _ Hl).
  - rewrite pay_CreditCard_eq. cbn [final fst snd].
    by rewrite (checkout_unchanged w _ Hl).
  - rewrite pay_PayPal_eq. cbn [final fst snd].
    by rewrite (checkout_unchanged w _ Hl).
  - rewrite pay_Cash_eq.
    destruct (gtb (amount (cart w)) (CashStrategy.cashAmount s)) eqn:E;
      cbn [final fst snd].
    + by rewrite (checkout_unchanged w _ Hl).
    + intros l' s' Hl'. cbn [heap] in Hl'.
      destruct (decide (paymentStrategy (cart w) = l')) as [<- | Hne].
      * rewrite lookup_insert_eq in Hl'. injection Hl' as <-. cbn.
        apply float_sub_not_negative; [by eapply Hw | done].
      * rewrite lookup_insert_ne in Hl' by done. by eapply Hw.
Qed.

(** X19. No cash strategy is ever overspent: if no cash reserve is below
    zero, none is after any sequence of [setPaymentStrategy], [setAmount]
    and [checkout] calls, including the checkouts that threw and whatever
    the amounts are ([setAmount(NaN)] makes the reserve [NaN] at the next
    checkout, which is not below zero either). *)
Theorem cart_never_overspends_cash (script : list call) (w : world) :
  solvent w → solvent (after script w).
Proof.
  revert w. induction script as [|c rest IH]; intros w Hw; cbn.
  - done.
  - apply IH. by apply exec_solvent.
Qed.

Lemma cart_never_overspends_cash_witness :
  let w := {| cart := constructor 3;
              heap := {[3%positive := PaymentStrategy.Cash
                          (CashStrategy.constructor 500)]} |} in
  solvent w
  ∧ solvent (after [SetAmount 300; Checkout; Checkout; SetAmount (-7);
                    Checkout; SetAmount nan; Checkout] w).
Proof.
  intros w.
  assert (solvent w) as H.
  { intros l s Hl. subst w. cbn in Hl.
    apply lookup_singleton_Some in Hl as [_ Hs]. injection Hs as <-.
    reflexivity. }
  split; [exact H|].
  exact (cart_never_overspends_cash
           [SetAmount 300; Checkout; Checkout; SetAmount (-7);
            Checkout; SetAmount nan; Checkout] w H).
Defined.

End StrategyFurther.

(** ** Singleton: the connection *)

Section SingletonFurther.
Import Database Connection.

Lemma obtains_fresh (c : call) (static : state) :
  obtains c = true → instance static = None →
  exec c static
  = (Return (VRef (fresh (dom (heap static)))),
     {| instance := Some (fresh (dom (heap static)));
        heap := <[fresh (dom (heap static))
                  := {| connectionString := "mongodb://localhost:27017/mydb";
                        connected := false |}]> (heap static) |},
     []).
Proof.
  intros Hc Hi. destruct static as [inst h]. cbn in Hi. subst inst.
  by destruct c.
Qed.

Lemma connect_eq (this : loc) (static : state) (object : t) :
  heap static !! this = Some object →
  connect this static
  = if connected object then
      (Return VUndefined, static,
       [Logged [Str "Already connected to database"]])
    else
      (Return VUndefined,
       {| instance := instance static;
          heap := <[this := {| connectionString := connectionString object;
                               connected := true |}]> (heap static) |},
       [Logged [Str "Connecting to database: ";
                Val (VString (connectionString object))]]).
Proof.
  intros Hthis. unfold connect. run_M. rewrite Hthis.
  by destruct (connected object).
Qed.

Lemma query_eq (this : loc) (sql : string) (static : state) (object : t) :
  heap static !! this = Some object →
  query this sql static
  = if connected object then
      (Return VUndefined, static,
       [Logged [Str "Executing query: "; Val (VString sql)]])
    else (Throw "Must connect to database first", static, []).
Proof.
  intros Hthis. unfold query. run_M. rewrite Hthis.
  by destruct (connected object).
Qed.

Lemma exec_connected_at (i : loc) (c : call) (static : state) :
  single static → instance static = Some i →
  connected_at i static → connected_at i (final (exec c static)).
Proof.
  intros Hs Hi (object & Hobj & Hconn).
  destruct (obtains c) eqn:Hc.
  { rewrite (obtains_existing c static i Hc Hi). by exists object. }
  destruct c as [| | this | this sql]; try done; cbn [exec].
  - destruct (heap static !! this) as [object'|] eqn:Hthis.
    + rewrite (connect_eq this static object' Hthis).
      destruct (connected object') eqn:Hc'; [by exists object|].
      assert (this ≠ i) as Hne by (intros ->; congruence).
      exists object. cbn. by rewrite lookup_insert_ne.
    + unfold connect. run_M. rewrite Hthis. by exists object.
  - destruct (heap static !! this) as [object'|] eqn:Hthis.
    + rewrite (query_eq this sql static object' Hthis).
      destruct (connected object'); by exists object.
    + unfold query. run_M. rewrite Hthis. by exists object.
Qed.

Lemma after_connected_at (i : loc) (script : list call) (static : state) :
  single static → instance static = Some i →
  connected_at i static → connected_at i (after script static).
Proof.
  revert static. induction script as [|c rest IH]; intros static Hs Hi Hc.
  - done.
  - cbn. destruct (exec_single c static Hs) as [Hs' Hkeep].
    apply IH; [done | by apply Hkeep | by apply exec_connected_at].
Qed.

Lemma obtains_any (c : call) (static : state) :
  obtains c = true → single static →
  ∃ i, outcome (exec c static) = Return (VRef i)
       ∧ instance (final (exec c static)) = Some i
       ∧ single (final (exec c static))
       ∧ is_Some (heap (final (exec c static)) !! i).
Proof.
  intros Hc Hs.
  assert (∃ i, outcome (exec c static) = Return (VRef i)
               ∧ instance (final (exec c static)) = Some i
               ∧ single (final (exec c static))) as (i & Hr & Hi & Hs').
  { destruct (instance static) as [i|] eqn:Hi.
    - exists i. rewrite (obtains_existing c static i Hc Hi). by cbn.
    - by apply obtains_first. }
  exists i. split_and!; try done.
  unfold single in Hs'. rewrite Hi in Hs'.
  apply elem_of_dom. rewrite Hs'. by apply elem_of_singleton.
Qed.

(** X20. The connection is shared.  Obtain a [Database] in either way,
    [connect()] through that reference, make any further calls, obtain a
    [Database] again in either way: a [query] through the second reference
    returns and prints the statement, because both references are the one
    instance and a connection, once made, is never undone. *)
Theorem connection_is_shared (before between : list call) (c1 c2 : call)
    (sql : string) :
  obtains c1 = true → obtains c2 = true →
  let r1 := exec c1 (after before initial) in
  ∃ i, outcome r1 = Return (VRef i)
       ∧ let static := after (Connect i :: between) (final r1) in
         exec c2 static = (Return (VRef i), static, [])
         ∧ query i sql static
           = (Return VUndefined, static,
              [Logged [Str "Executing query: "; Val (VString sql)]]).
Proof.
  intros H1 H2 r1.
  destruct (after_single before initial single_initial) as [Hs0 _].
  destruct (obtains_any c1 _ H1 Hs0) as (i & Hr1 & Hi1 & Hs1 & [object Hobj]).
  fold r1 in Hr1, Hi1, Hs1, Hobj.
  exists i. split; [done|]. cbv zeta. cbn [after fold_left exec].
  set (static1 := final (connect i (final r1))).
  destruct (exec_single (Connect i) (final r1) Hs1) as [Hs1' Hkeep1].
  specialize (Hkeep1 i Hi1). cbn [exec] in Hs1', Hkeep1.
  fold static1 in Hs1', Hkeep1.
  assert (connected_at i static1) as Hconn.
  { subst static1. rewrite (connect_eq i (final r1) object Hobj).
    destruct (connected object) eqn:Hc; [by exists object|].
    eexists. cbn. by rewrite lookup_insert_eq. }
  change (fold_left (λ s c, final (exec c s)) between static1)
    with (after between static1).
  destruct (after_single between static1 Hs1') as [Hs2 Hkeep2].
  specialize (Hkeep2 i Hkeep1).
  destruct (after_connected_at i between static1 Hs1' Hkeep1 Hconn)
    as (object2 & Hobj2 & Hconn2).
  split.
  - by apply obtains_existing.
  - rewrite (query_eq i sql _ object2 Hobj2). by rewrite Hconn2.
Qed.

Lemma connection_is_shared_witness :
  ∃ i, outcome (exec GetInstance (after [] initial)) = Return (VRef i)
       ∧ let static := after [Connect i; GetInstance]
                         (final (exec GetInstance (after [] initial))) in
         exec New static = (Return (VRef i), static, [])
         ∧ query i "SELECT * FROM products" static
           = (Return VUndefined, static,
              [Logged [Str "Executing query: ";
                       Val (VString "SELECT * FROM products")]]).
Proof.
  exact (connection_is_shared [] [GetInstance] GetInstance New
           "SELECT * FROM products" eq_refl eq_refl).
Defined.

Lemma obtains_unconnected (c : call) (static : state) :
  obtains c = true → unconnected static →
  unconnected (final (exec c static)).
Proof.
  intros Hc Hu. destruct (instance static) as [i|] eqn:Hi.
  - by rewrite (obtains_existing c static i Hc Hi).
  - rewrite (obtains_fresh c static Hc Hi). cbn [final fst snd].
    intros l object Hl. cbn [heap] in Hl.
    destruct (decide (fresh (dom (heap static)) = l)) as [<- | Hne].
    + rewrite lookup_insert_eq in Hl. by injection Hl as <-.
    + rewrite lookup_insert_ne in Hl by done. by eapply Hu.
Qed.

Lemma exec_unconnected (c : call) (static : state) :
  (∀ this, c ≠ Connect this) → unconnected static →
  unconnected (final (exec c static)).
Proof.
  intros Hc Hu. destruct c as [| | this | this sql]; cbn [exec].
  - by apply (obtains_unconnected GetInstance).
  - by apply (obtains_unconnected New).
  - by destruct (Hc this).
  - unfold query. run_M.
    destruct (heap static !! this) as [object|]; cbn; [|done].
    by destruct (connected object).
Qed.

(** X21. A query needs a connection: as long as no [connect] has been
    called, whatever else was, every [query] throws, and through the
    instance it throws ["Must connect to database first"] and changes
    nothing. *)
Theorem query_before_connect_throws (script : list call) (this : loc)
    (sql : string) :
  (∀ l, Connect l ∉ script) →
  let static := after script initial in
  throws (outcome (query this sql static)) = true
  ∧ (instance static = Some this →
     query this sql static
     = (Throw "Must connect to database first", static, [])).
Proof.
  intros Hscript static.
  assert (unconnected static ∧ single static) as [Hu Hs].
  { subst static.
    assert (unconnected initial) as Hu0.
    { intros l object Hl. unfold initial in Hl. cbn [heap] in Hl.
      by rewrite lookup_empty in Hl. }
    pose proof single_initial as Hs0.
    revert Hu0 Hs0. generalize initial.
    induction script as [|c rest IH]; intros static Hu0 Hs0; [done|].
    cbn. apply IH.
    - intros l Hin. apply (Hscript l), elem_of_cons. by right.
    - apply exec_unconnected; [|done].
      intros l ->. apply (Hscript l), elem_of_cons. by left.
    - by apply exec_single. }
  split.
  - unfold query. run_M.
    destruct (heap static !! this) as [object|] eqn:Hthis; cbn; [|done].
    by rewrite (Hu this object Hthis).
  - intros Hi. unfold single in Hs. rewrite Hi in Hs.
    assert (is_Some (heap static !! this)) as [object Hobj].
    { apply elem_of_dom. rewrite Hs. by apply elem_of_singleton. }
    rewrite (query_eq this sql static object Hobj).
    by rewrite (Hu this object Hobj).
Qed.

Lemma query_before_connect_throws_witness :
  (∀ l, Connect l ∉ [GetInstance; New])
  ∧ query 1%positive "SELECT * FROM users" (after [GetInstance; New] initial)
    = (Throw "Must connect to database first",
       after [GetInstance; New] initial, []).
Proof.
  assert (∀ l, Connect l ∉ [GetInstance; New]) as H.
  { intros l Hin. inv_elem_of Hin. }
  split; [exact H|].
  exact (proj2 (query_before_connect_throws [GetInstance; New] 1%positive
                  "SELECT * FROM users" H) eq_refl).
Defined.

(** X22. Connecting is idempotent: after one [connect] on a [Database], a
    second one only prints ["Already connected to database"] and leaves
    the state as the first one made it. *)
Theorem connect_twice (this : loc) (static : state) (object : t) :
  heap static !! this = Some object →
  let connected_state := final (connect this static) in
  connect this connected_state
  = (Return VUndefined, connected_state,
     [Logged [Str "Already connected to database"]]).
Proof.
  intros Hthis. cbv zeta. rewrite (connect_eq this static object Hthis).
  destruct (connected object) eqn:Hc; cbn [final fst snd].
  - rewrite (connect_eq this static object Hthis). by rewrite Hc.
  - erewrite connect_eq; [|cbn; by rewrite lookup_insert_eq]. done.
Qed.

Lemma connect_twice_witness :
  let static := final (getInstance initial) in
  connect 1%positive (final (connect 1%positive static))
  = (Return VUndefined, final (connect 1%positive static),
     [Logged [Str "Already connected to database"]]).
Proof.
  intros static.
  exact (connect_twice 1%positive static
           {| connectionString := "mongodb://localhost:27017/mydb";
              connected := false |} eq_refl).
Defined.

End SingletonFurther.

(** ** Prototype: what a clone copies and what it leaves alone *)

Section PrototypeFurther.
Import Prototype.





(** X24. A [clone] that returns has added exactly one object to the heap,
    at a location that was free, and has left every other location as it
    was. *)
Theorem clone_frame (h h' : gmap loc object) (l c : loc) :
  clone l h = Return (c, h') →
  h !! c = None
  ∧ is_Some (h' !! c)
  ∧ (∀ l', l' ≠ c → h' !! l' = h !! l')
  ∧ dom h' = {[c]} ∪ dom h.
Proof.
  unfold clone. intros Hclone.
  assert (∃ copy, (c, h') = alloc copy h) as [copy Halloc].
  { destruct (h !! l) as [o|]; [|done].
    destruct (class_of o); [done | |]; injection Hclone as <- <-;
      by eexists. }
  pose proof (alloc_fresh copy h) as Hfresh.
  pose proof (alloc_lookup copy h) as Hc.
  rewrite <- Halloc in Hfresh, Hc. cbn in Hfresh, Hc.
  unfold alloc in Halloc. injection Halloc as Hceq Hheq.
  split_and!; [done | by eexists | |].
  - intros l' Hne. rewrite Hheq, <- Hceq. by rewrite lookup_insert_ne.
  - rewrite Hheq, <- Hceq. apply dom_insert_L.
Qed.

Lemma clone_frame_witness :
  let h := (new_Circle (VNumber 15) ∅).2 in
  h !! 2%positive = None
  ∧ is_Some ((alloc (Circle_constructor (VNumber 15)) h).2 !! 2%positive)
  ∧ (∀ l', l' ≠ 2%positive →
           (alloc (Circle_constructor (VNumber 15)) h).2 !! l' = h !! l')
  ∧ dom (alloc (Circle_constructor (VNumber 15)) h).2 = {[2%positive]} ∪ dom h.
Proof.
  intros h.
  exact (clone_frame h (alloc (Circle_constructor (VNumber 15)) h).2
           1%positive 2%positive eq_refl).
Defined.

(** X25. A clone can be cloned in turn: cloning an object and then its
    clone gives three pairwise distinct objects with the same class and
    fields. *)
Theorem clone_of_clone (h : gmap loc object) (l : loc) (o : object) :
  h !! l = Some o → constructed o →
  ∃ c1 h1 c2 h2,
    clone l h = Return (c1, h1) ∧ clone c1 h1 = Return (c2, h2)
    ∧ c1 ≠ l ∧ c2 ≠ l ∧ c2 ≠ c1
    ∧ h2 !! l = Some o ∧ h2 !! c1 = Some o ∧ h2 !! c2 = Some o.
Proof.
  intros Hl Ho.
  exists (alloc o h).1, (alloc o h).2.
  set (c1 := (alloc o h).1). set (h1 := (alloc o h).2).
  exists (alloc o h1).1, (alloc o h1).2.
  assert (h1 !! c1 = Some o) as Hc1 by apply alloc_lookup.
  destruct (alloc_frame o h l) as [Hl1 Hne1]; [by eexists|].
  fold h1 in Hl1. fold c1 in Hne1. rewrite Hl in Hl1.
  destruct (alloc_frame o h1 l) as [Hl2 Hne2]; [by eexists|].
  destruct (alloc_frame o h1 c1) as [Hc2 Hne3]; [by eexists|].
  split_and!; try done.
  - rewrite (clone_constructed h l o Hl Ho). by destruct (alloc o h).
  - rewrite (clone_constructed h1 c1 o Hc1 Ho). by destruct (alloc o h1).
  - congruence.
  - congruence.
  - apply alloc_lookup.
Qed.

Lemma clone_of_clone_witness :
  let o := Circle_constructor (VNumber 15) in
  let h : gmap loc object := {[1%positive := o]} in
  ∃ c1 h1 c2 h2,
    clone 1%positive h = Return (c1, h1) ∧ clone c1 h1 = Return (c2, h2)
    ∧ c1 ≠ 1%positive ∧ c2 ≠ 1%positive ∧ c2 ≠ c1
    ∧ h2 !! 1%positive = Some o ∧ h2 !! c1 = Some o ∧ h2 !! c2 = Some o.
Proof.
  intros o h.
  exact (clone_of_clone h 1%positive o eq_refl (constructed_Circle _)).
Defined.

End PrototypeFurther.

(** ** The factories: what they hand out can be used *)

Section FactoriesFurther.

Lemma toLowerCase_char_idempotent (c : ascii) :
  SimpleFactory.toLowerCase_char (SimpleFactory.toLowerCase_char c)
  = SimpleFactory.toLowerCase_char c.
Proof. by destruct c as [[] [] [] [] [] [] [] []]. Qed.

Lemma toLowerCase_idempotent (s : string) :
  SimpleFactory.toLowerCase (SimpleFactory.toLowerCase s)
  = SimpleFactory.toLowerCase s.
Proof.
  induction s as [|c rest IH]; [done|].
  cbn. by rewrite toLowerCase_char_idempotent, IH.
Qed.

(** X26. Whatever [createAnimal] returns can make its sound: the factory
    never hands out a bare [Animal], so ["makeSound() method must be
    implemented"] cannot come from an animal it created; the sound is
    ["Woof!"] or ["Meow!"]. *)
Theorem created_animal_makes_sound (type : string) (animal : SimpleFactory.class) :
  SimpleFactory.createAnimal type = Return animal →
  animal ≠ SimpleFactory.Animal
  ∧ (SimpleFactory.makeSound animal = Return "Woof!"
     ∨ SimpleFactory.makeSound animal = Return "Meow!").
Proof.
  unfold SimpleFactory.createAnimal.
  destruct (String.eqb (SimpleFactory.toLowerCase type) "dog").
  { intros [= <-]. split; [done | by left]. }
  destruct (String.eqb (SimpleFactory.toLowerCase type) "cat").
  { intros [= <-]. split; [done | by right]. }
  done.
Qed.

Lemma created_animal_makes_sound_witness :
  SimpleFactory.Cat ≠ SimpleFactory.Animal
  ∧ (SimpleFactory.makeSound SimpleFactory.Cat = Return "Woof!"
     ∨ SimpleFactory.makeSound SimpleFactory.Cat = Return "Meow!").
Proof.
  exact (created_animal_makes_sound "CAT" SimpleFactory.Cat eq_refl).
Defined.

(** X27. [createAnimal] does not tell letter case apart: a type and its
    lower-case form get the same answer, and so do any two types with the
    same lower-case form. *)
Theorem createAnimal_ignores_case (type other : string) :
  SimpleFactory.createAnimal (SimpleFactory.toLowerCase type)
  = SimpleFactory.createAnimal type
  ∧ (SimpleFactory.toLowerCase type = SimpleFactory.toLowerCase other →
     SimpleFactory.createAnimal type = SimpleFactory.createAnimal other).
Proof.
  unfold SimpleFactory.createAnimal. split.
  - by rewrite toLowerCase_idempotent.
  - by intros ->.
Qed.

Lemma createAnimal_ignores_case_witness :
  SimpleFactory.toLowerCase "Dog" = SimpleFactory.toLowerCase "dOG"
  ∧ SimpleFactory.createAnimal "Dog" = SimpleFactory.createAnimal "dOG".
Proof.
  assert (SimpleFactory.toLowerCase "Dog" = SimpleFactory.toLowerCase "dOG")
    as H by reflexivity.
  split; [exact H|].
  exact (proj2 (createAnimal_ignores_case "Dog" "dOG") H).
Defined.

(** X28. The errors of the abstract methods cannot be reached through
    objects that exist: every factory that [new] returns creates a
    vehicle, and every vehicle that [new] returns, or that such a factory
    creates, answers [getType()] with ["Car"] or ["Bike"]. *)
Theorem created_vehicle_has_type :
  (∀ C f, FactoryMethod.new_factory C = Return f →
          ∃ v, FactoryMethod.createVehicle f = Return v
               ∧ (FactoryMethod.getType v = Return "Car"
                  ∨ FactoryMethod.getType v = Return "Bike"))
  ∧ (∀ C v, FactoryMethod.new_vehicle C = Return v →
            FactoryMethod.getType v = Return "Car"
            ∨ FactoryMethod.getType v = Return "Bike").
Proof.
  split.
  - intros [] f; cbn; [done | |]; intros [= <-]; eexists; split; try done.
    + by left.
    + by right.
  - intros [] v; cbn; [done | |]; intros [= <-]; [by left | by right].
Qed.

Lemma created_vehicle_has_type_witness :
  ∃ v, FactoryMethod.createVehicle FactoryMethod.BikeFactory = Return v
       ∧ (FactoryMethod.getType v = Return "Car"
          ∨ FactoryMethod.getType v = Return "Bike").
Proof.
  exact (proj1 created_vehicle_has_type FactoryMethod.BikeFactory
           FactoryMethod.BikeFactory eq_refl).
Defined.

End FactoriesFurther.

(** ** Facade and the open/closed example: the amounts computed *)

Section AmountsFurther.

(** The script's purchase: four lines, the last one the total. *)
Example buy_script :
  ∃ total, buy 150000 tt
           = (Return VUndefined, tt,
              [Logged [Str "Discount: "; num (150000 * 0.9)];
               Logged [Str "Fees: "; num (150000 * 0.9 * 1.05)];
               Logged [Str "Shipping: "; num total];
               Logged [Str "Total: "; num total]])
           ∧ (total == 155925)%Q.
Proof. eexists. split; reflexivity. Qed.

Lemma ShopFacade_calculate_eq (price : Q) :
  ShopFacade.calculate price tt
  = let total := (price * 0.9 * 1.05 + price * 0.9 * 1.05 * 0.1)%Q in
    (Return total, tt,
     [Logged [Str "Discount: "; num (price * 0.9)];
      Logged [Str "Fees: "; num (price * 0.9 * 1.05)];
      Logged [Str "Shipping: "; num total]]).
Proof. reflexivity. Qed.

(** X29. The facade's total grows with the price and, for a price that is
    not negative, is never below it: the fee and the shipping outweigh the
    discount.  A price of zero costs nothing. *)
Theorem ShopFacade_total_bounds (price price' total total' : Q) :
  outcome (ShopFacade.calculate price tt) = Return total →
  outcome (ShopFacade.calculate price' tt) = Return total' →
  ((price <= price')%Q → (total <= total')%Q)
  ∧ ((0 <= price)%Q → (price <= total)%Q)
  ∧ ((price == 0)%Q → (total == 0)%Q).
Proof.
  rewrite !ShopFacade_calculate_eq. cbn.
  intros [= <-] [= <-]. split_and!; intros H; lra.
Qed.

Lemma ShopFacade_total_bounds_witness :
  (0 <= 150000)%Q
  ∧ (150000 <= 150000 * 0.9 * 1.05 + 150000 * 0.9 * 1.05 * 0.1)%Q.
Proof.
  assert (0 <= 150000)%Q as H by (vm_compute; discriminate).
  split; [exact H|].
  exact (proj1 (proj2 (ShopFacade_total_bounds 150000 150000 _ _
                         eq_refl eq_refl)) H).
Defined.

(** X30. The rewrite for the open/closed principle keeps the amounts: a
    [RegularDiscount] and a [PremiumDiscount] compute for an [Order] what
    [DiscountWithoutOCP] computes for an order literal of type
    ["regular"] and ["premium"] with that price.  They differ off that
    path: for any other type the old class returns [undefined] without
    complaint, while the base class [Discount] of the new hierarchy
    throws, having no rate. *)
Theorem OCP_rewrite_keeps_discounts (price : Q) (now : value) :
  SOLID.calculateDiscount SOLID.RegularDiscount (SOLID.Order.constructor price now)
  = Return (SOLID.DiscountWithoutOCP.calculateDiscount
              {| SOLID.OrderLiteral.type := VString "regular";
                 SOLID.OrderLiteral.price := price |})
  ∧ SOLID.calculateDiscount SOLID.PremiumDiscount
      (SOLID.Order.constructor price now)
    = Return (SOLID.DiscountWithoutOCP.calculateDiscount
                {| SOLID.OrderLiteral.type := VString "premium";
                   SOLID.OrderLiteral.price := price |})
  ∧ (∀ type, type ≠ VString "regular" → type ≠ VString "premium" →
             SOLID.DiscountWithoutOCP.calculateDiscount
               {| SOLID.OrderLiteral.type := type;
                  SOLID.OrderLiteral.price := price |}
             = VUndefined)
  ∧ throws (SOLID.calculateDiscount SOLID.Discount
              (SOLID.Order.constructor price now)) = true.
Proof.
  split_and!; try done.
  intros type Hr Hp. unfold SOLID.DiscountWithoutOCP.calculateDiscount.
  cbn [SOLID.OrderLiteral.type].
  destruct type as [| q | s | b | l]; try done. cbn [SOLID.is_string].
  assert (String.eqb s "regular" = false) as ->.
  { apply String.eqb_neq. intros ->. by apply Hr. }
  assert (String.eqb s "premium" = false) as ->.
  { apply String.eqb_neq. intros ->. by apply Hp. }
  done.
Qed.

Lemma OCP_rewrite_keeps_discounts_witness :
  VString "gold" ≠ VString "regular" ∧ VString "gold" ≠ VString "premium"
  ∧ SOLID.DiscountWithoutOCP.calculateDiscount
      {| SOLID.OrderLiteral.type := VString "gold";
         SOLID.OrderLiteral.price := 100 |}
    = VUndefined.
Proof.
  assert (VString "gold" ≠ VString "regular") as Hr by discriminate.
  assert (VString "gold" ≠ VString "premium") as Hp by discriminate.
  split_and!; [exact Hr | exact Hp |].
  exact (proj1 (proj2 (proj2 (OCP_rewrite_keeps_discounts 100 VUndefined)))
           (VString "gold") Hr Hp).
Defined.

End AmountsFurther.
